(** * Monthy line compiler: a shallow embedding of [montyp_compiler.py]

    The development follows the Python source function by function.

    Data model.  A Python [str] is a Rocq [string]; its characters are read
    as code points 0..255 (ASCII plus Latin-1).  On that range the character
    tables of CPython used by the program ([str.isspace], the regular
    expression classes [\s] and [\w], the line boundaries of
    [str.splitlines], case-insensitive comparison of ASCII letters) are
    written out below; code points above 255 are outside the model.  The
    interpreter's recursion limit is a resource bound of the host and is not
    modelled either: recursion of [_compile_line] is bounded by the length of
    the line, and [OutOfFuel] is shown unreachable.

    The compiler object is the record [compiler]; methods take the object
    and return it in an [outcome], which also carries a raised exception. *)

From Stdlib Require Import Bool Arith ZArith Lia List Ascii String DecimalString.
Import ListNotations.
Local Open Scope list_scope.
Local Open Scope string_scope.
Local Open Scope nat_scope.

(** ** Characters *)

Definition code (c : ascii) : nat := nat_of_ascii c.

Definition in_range (lo hi : nat) (c : ascii) : bool :=
  (lo <=? code c) && (code c <=? hi).

(** [str.isspace] / [\s] on code points below 256. *)
Definition isspace (c : ascii) : bool :=
  in_range 9 13 c || in_range 28 32 c || (code c =? 133) || (code c =? 160).

(** Line boundaries of [str.splitlines] on code points below 256. *)
Definition is_linebreak (c : ascii) : bool :=
  in_range 10 13 c || in_range 28 30 c || (code c =? 133).

Definition is_upper (c : ascii) : bool := in_range 65 90 c.
Definition is_lower (c : ascii) : bool := in_range 97 122 c.
Definition is_digit (c : ascii) : bool := in_range 48 57 c.

(** [\w] under Unicode matching, on code points below 256. *)
Definition is_word (c : ascii) : bool :=
  is_digit c || is_upper c || is_lower c || (code c =? 95)
  || (code c =? 170) || in_range 178 179 c || (code c =? 181)
  || in_range 185 186 c || in_range 188 190 c
  || in_range 192 214 c || in_range 216 246 c || in_range 248 255 c.

(** Simple lower-casing of an ASCII letter, as [re.I] compares literals. *)
Definition lower (c : ascii) : ascii :=
  if is_upper c then ascii_of_nat (code c + 32) else c.

(** ** String primitives of Python used by the source *)

Fixpoint lstrip (s : string) : string :=
  match s with
  | String c t => if isspace c then lstrip t else s
  | EmptyString => EmptyString
  end.

Fixpoint rstrip (s : string) : string :=
  match s with
  | String c t =>
      match rstrip t with
      | EmptyString => if isspace c then EmptyString else String c EmptyString
      | r => String c r
      end
  | EmptyString => EmptyString
  end.

Definition strip (s : string) : string := rstrip (lstrip s).

Fixpoint drop (n : nat) (s : string) : string :=
  match n, s with
  | S k, String _ t => drop k t
  | _, _ => s
  end.

Fixpoint take (n : nat) (s : string) : string :=
  match n, s with
  | S k, String c t => String c (take k t)
  | _, _ => EmptyString
  end.

(** [tok in s] together with [s.partition(tok)]: the text before and after
    the first occurrence of [tok]. *)
Fixpoint find_split (tok s : string) : option (string * string) :=
  if prefix tok s then Some (EmptyString, drop (length tok) s)
  else match s with
       | String c t =>
           match find_split tok t with
           | Some (h, tl) => Some (String c h, tl)
           | None => None
           end
       | EmptyString => None
       end.

Definition contains (tok s : string) : bool :=
  match find_split tok s with Some _ => true | None => false end.

Definition partition (s tok : string) : string * string * string :=
  match find_split tok s with
  | Some (h, tl) => (h, tok, tl)
  | None => (s, EmptyString, EmptyString)
  end.

(** [s.count(ch)] for a one-character [ch]. *)
Fixpoint count (ch : ascii) (s : string) : nat :=
  match s with
  | String c t => (if Ascii.eqb c ch then 1 else 0) + count ch t
  | EmptyString => 0
  end.

(** [s.replace(old, new)]: every non-overlapping occurrence, left to right.
    [skip] counts the characters of an occurrence still to be passed over. *)
Fixpoint replace_go (old new s : string) (skip : nat) : string :=
  match s with
  | String c t =>
      match skip with
      | S k => replace_go old new t k
      | O => if prefix old s
             then new ++ replace_go old new t (length old - 1)
             else String c (replace_go old new t 0)
      end
  | EmptyString => EmptyString
  end.

Fixpoint intersperse_str (new s : string) : string :=
  match s with
  | String c t => new ++ String c (intersperse_str new t)
  | EmptyString => new
  end.

Definition replace (s old new : string) : string :=
  match old with
  | EmptyString => intersperse_str new s
  | _ => replace_go old new s 0
  end.

(** [sep.join(xs)] *)
Fixpoint join (sep : string) (xs : list string) : string :=
  match xs with
  | [] => EmptyString
  | [x] => x
  | x :: rest => x ++ sep ++ join sep rest
  end.

(** [unit * n]; a count below one gives the empty string. *)
Fixpoint repeat_str (unit : string) (n : nat) : string :=
  match n with
  | O => EmptyString
  | S k => unit ++ repeat_str unit k
  end.

Definition str_mul (unit : string) (n : Z) : string :=
  repeat_str unit (Z.to_nat n).

Definition CR : ascii := ascii_of_nat 13.
Definition LF : ascii := ascii_of_nat 10.

(** [s.splitlines()]: a carriage return followed by a line feed is one
    boundary; no empty last line is produced. *)
Fixpoint splitlines (s : string) : list string :=
  match s with
  | EmptyString => []
  | String c t =>
      if is_linebreak c then
        EmptyString ::
          match t with
          | String d t' =>
              if Ascii.eqb c CR && Ascii.eqb d LF then splitlines t'
              else splitlines t
          | EmptyString => []
          end
      else
        match splitlines t with
        | [] => [String c EmptyString]
        | l :: ls => String c l :: ls
        end
  end.

(** [s.split()]: the maximal runs of non-whitespace characters. *)
Fixpoint split_ws (s : string) : list string :=
  match s with
  | EmptyString => []
  | String c t =>
      if isspace c then split_ws t
      else match t with
           | EmptyString => [String c EmptyString]
           | String d _ =>
               if isspace d then String c EmptyString :: split_ws t
               else match split_ws t with
                    | w :: ws => String c w :: ws
                    | [] => [String c EmptyString]
                    end
           end
  end.

(** [str(n)] for a line number. *)
Definition str_of_nat (n : nat) : string :=
  NilEmpty.string_of_uint (Nat.to_uint n).

Definition nl : string := String LF EmptyString.

(** ** Regular expressions

    The patterns of the source use literals, the classes [\s], [.],
    [[A-Za-z_]] and [[A-Za-z0-9_]], greedy and lazy repetition of a single
    class, sequence, alternation, groups, [^], [$] and [\b].  Every pattern is
    compiled with [re.I]. *)

Inductive cclass : Type :=
| CLit (c : ascii)   (* a literal character *)
| CSpace             (* \s *)
| CAny               (* .  (no DOTALL: anything but a line feed) *)
| CIdStart           (* [A-Za-z_] *)
| CIdChar.           (* [A-Za-z0-9_] *)

Definition accepts (k : cclass) (x : ascii) : bool :=
  match k with
  | CLit c => Ascii.eqb (lower x) (lower c)
  | CSpace => isspace x
  | CAny => negb (Ascii.eqb x LF)
  | CIdStart => is_upper x || is_lower x || (code x =? 95)
  | CIdChar => is_upper x || is_lower x || is_digit x || (code x =? 95)
  end.

Inductive regex : Type :=
| Eps
| Chr (k : cclass)
| Star (greedy : bool) (k : cclass)
| Plus (greedy : bool) (k : cclass)
| Seq (a b : regex)
| Alt (a b : regex)
| Group (n : nat) (a : regex)
| Bol      (* ^  *)
| Eol      (* $  *)
| WordB.   (* \b *)

Fixpoint lit (s : string) : regex :=
  match s with
  | EmptyString => Eps
  | String c EmptyString => Chr (CLit c)
  | String c t => Seq (Chr (CLit c)) (lit t)
  end.

Fixpoint seq (rs : list regex) : regex :=
  match rs with
  | [] => Eps
  | [r] => r
  | r :: rest => Seq r (seq rest)
  end.

Definition caps : Type := list (nat * string).

Fixpoint lookup (n : nat) (g : caps) : option string :=
  match g with
  | (m, v) :: rest => if n =? m then Some v else lookup n rest
  | [] => None
  end.

(** A continuation receives the character before the position, the text
    from the position on, and the groups closed so far. *)
Definition cont : Type := option ascii -> string -> caps -> option (string * caps).

Fixpoint star_greedy (k : cclass) (K : cont) (prev : option ascii)
    (s : string) (g : caps) : option (string * caps) :=
  match s with
  | String x t =>
      if accepts k x then
        match star_greedy k K (Some x) t g with
        | Some r => Some r
        | None => K prev s g
        end
      else K prev s g
  | EmptyString => K prev s g
  end.

Fixpoint star_lazy (k : cclass) (K : cont) (prev : option ascii)
    (s : string) (g : caps) : option (string * caps) :=
  match K prev s g with
  | Some r => Some r
  | None =>
      match s with
      | String x t => if accepts k x then star_lazy k K (Some x) t g else None
      | EmptyString => None
      end
  end.

Definition star (greedy : bool) : cclass -> cont -> cont :=
  if greedy then star_greedy else star_lazy.

Definition word_before (prev : option ascii) : bool :=
  match prev with Some c => is_word c | None => false end.

Definition word_after (s : string) : bool :=
  match s with String c _ => is_word c | EmptyString => false end.

Definition at_eol (s : string) : bool :=
  match s with
  | EmptyString => true
  | String c EmptyString => Ascii.eqb c LF
  | _ => false
  end.

(** Backtracking matcher, with the priorities of Python's engine: a greedy
    repetition tries the longer match first, a lazy one the shorter, an
    alternation its left branch. *)
Fixpoint rmatch (r : regex) (K : cont) (prev : option ascii) (s : string)
    (g : caps) : option (string * caps) :=
  match r with
  | Eps => K prev s g
  | Chr k =>
      match s with
      | String x t => if accepts k x then K (Some x) t g else None
      | EmptyString => None
      end
  | Star gr k => star gr k K prev s g
  | Plus gr k =>
      match s with
      | String x t => if accepts k x then star gr k K (Some x) t g else None
      | EmptyString => None
      end
  | Seq a b => rmatch a (rmatch b K) prev s g
  | Alt a b =>
      match rmatch a K prev s g with
      | Some res => Some res
      | None => rmatch b K prev s g
      end
  | Group n a =>
      rmatch a (fun p' s' g' => K p' s' ((n, take (length s - length s') s) :: g'))
        prev s g
  | Bol => match prev with None => K prev s g | Some _ => None end
  | Eol => if at_eol s then K prev s g else None
  | WordB => if xorb (word_before prev) (word_after s) then K prev s g else None
  end.

Definition accept_any : cont := fun _ s g => Some (s, g).
Definition accept_end : cont :=
  fun _ s g => match s with EmptyString => Some (s, g) | _ => None end.

(** [re.match(r, s, flags=re.I)]: the groups of the match, if any. *)
Definition re_match (r : regex) (s : string) : option caps :=
  match rmatch r accept_any None s [] with
  | Some (_, g) => Some g
  | None => None
  end.

(** [re.fullmatch(r, s, flags=re.I)] as a truth value. *)
Definition re_fullmatch (r : regex) (s : string) : bool :=
  match rmatch r accept_end None s [] with Some _ => true | None => false end.

(** [m.group(n)] *)
Definition group (n : nat) (m : caps) : string :=
  match lookup n m with Some v => v | None => EmptyString end.

(** [re.sub(r, repl, s, flags=re.I)] for a replacement text without group
    references: leftmost matches, not overlapping. *)
Fixpoint sub_go (r : regex) (repl : string) (prev : option ascii) (s : string)
    (skip : nat) : string :=
  match s with
  | String c t =>
      match skip with
      | S k => sub_go r repl (Some c) t k
      | O =>
          match rmatch r accept_any prev s [] with
          | Some (s', _) =>
              match length s - length s' with
              | O => repl ++ String c (sub_go r repl (Some c) t 0)
              | S k => repl ++ sub_go r repl (Some c) t k
              end
          | None => String c (sub_go r repl (Some c) t 0)
          end
      end
  | EmptyString =>
      match skip, rmatch r accept_any prev s [] with
      | O, Some _ => repl
      | _, _ => EmptyString
      end
  end.

Definition re_sub (r : regex) (repl s : string) : string :=
  sub_go r repl None s 0.

(** ** Tables of the source *)

Definition WORD_OPS : list (string * string) :=
  [(" plus ", " + "); (" minus ", " - "); (" times ", " * "); (" over ", " / ")].

Definition LITERALS : list (string * string) :=
  [(" true ", " True "); (" false ", " False "); (" null ", " None ")].

Definition word (phrase : string) : regex := seq [WordB; lit phrase; WordB].

Definition COMPARATORS : list (regex * string) :=
  [ (word "is at least", ">="); (word "is at most", "<=");
    (word "is greater than", ">"); (word "is less than", "<");
    (word "equals", "=="); (word "not equals", "!=") ].

(** The line patterns of [_compile_line], in the order they are tried. *)
Definition RE_END : regex := lit "end".
Definition RE_SAY_F : regex :=
  seq [Bol; lit "say:"; Star true CSpace; Group 1 (Star true CAny); Eol].
Definition RE_SAY : regex :=
  seq [Bol; lit "say"; Plus true CSpace; Group 1 (Plus true CAny); Eol].
Definition RE_IF_THEN : regex :=
  seq [Bol; lit "if"; Plus true CSpace; Group 1 (Plus false CAny);
       Plus true CSpace; lit "then"; Plus true CSpace;
       Group 2 (Plus true CAny); Eol].
Definition colon_or_space : regex :=
  Alt (Seq (Chr (CLit ":")) (Star true CSpace)) (Star true CSpace).
Definition RE_IF : regex :=
  seq [Bol; lit "if"; Plus true CSpace; Group 1 (Plus false CAny);
       colon_or_space; Eol].
Definition RE_REPEAT : regex :=
  seq [Bol; lit "repeat"; Plus true CSpace; Group 1 (Plus false CAny);
       Plus true CSpace; lit "times";
       Alt (Seq (Plus true CSpace) (lit "do")) Eps; colon_or_space; Eol].
Definition RE_DEF : regex :=
  seq [Bol; lit "def"; Plus true CSpace;
       Group 1 (Seq (Chr CIdStart) (Star true CIdChar)); Star true CSpace;
       Group 2 (Star false CAny); colon_or_space; Eol].
Definition RE_RETURN : regex :=
  seq [Bol; lit "return"; Plus true CSpace; Group 1 (Plus true CAny); Eol].
Definition RE_ASSIGN : regex :=
  seq [Bol; Group 1 (Seq (Chr CIdStart) (Star true CIdChar)); Plus true CSpace;
       lit "is"; Plus true CSpace; Group 2 (Plus true CAny); Eol].

(** ** The compiler object *)

Record compiler : Type := mkCompiler {
  indent_unit : string;
  lines : list string;
  indent : Z;
  stack : list string
}.

(** [MonthyCompiler(indent_unit)] *)
Definition new_compiler (unit : string) : compiler :=
  mkCompiler unit [] 0%Z [].

Inductive exn : Type :=
| SyntaxError (msg : string)
| IndexError (msg : string).

Definition exn_msg (e : exn) : string :=
  match e with SyntaxError m => m | IndexError m => m end.

(** What a method call leaves behind: the object after a normal return, or
    the exception raised together with the object as it stood then. *)
Inductive outcome : Type :=
| Done (c : compiler)
| Raised (e : exn) (c : compiler)
| OutOfFuel.

Definition bind (o : outcome) (f : compiler -> outcome) : outcome :=
  match o with
  | Done c => f c
  | other => other
  end.

Notation "o >>= f" := (bind o f) (at level 50, left associativity).

Definition DQ : ascii := ascii_of_nat 34.
Definition SQ : ascii := ascii_of_nat 39.
Definition BSL : ascii := ascii_of_nat 92.
Definition str1 (c : ascii) : string := String c EmptyString.

Definition _emit (s : string) (c : compiler) : compiler :=
  mkCompiler (indent_unit c)
    (app (lines c) [str_mul (indent_unit c) (indent c) ++ s])
    (indent c) (stack c).

Definition add_indent (d : Z) (c : compiler) : compiler :=
  mkCompiler (indent_unit c) (lines c) (indent c + d)%Z (stack c).

(** [self.stack.append(kind)] *)
Definition push (kind : string) (c : compiler) : compiler :=
  mkCompiler (indent_unit c) (lines c) (indent c) (app (stack c) [kind]).

(** [self.stack.pop()] *)
Definition pop (c : compiler) : outcome :=
  match stack c with
  | [] => Raised (IndexError "pop from empty list") c
  | _ => Done (mkCompiler (indent_unit c) (lines c) (indent c)
                 (removelast (stack c)))
  end.

Definition is_empty_stack (c : compiler) : bool :=
  match stack c with [] => true | _ => false end.

Definition even_count (ch : ascii) (s : string) : bool :=
  count ch s mod 2 =? 0.

Fixpoint strip_comment_from (tokens : list string) (line : string) : string :=
  match tokens with
  | token :: more =>
      if contains token line then
        let '(head, _sep, _tail) := partition line token in
        if even_count DQ head && even_count SQ head then rstrip head
        else strip_comment_from more line
      else strip_comment_from more line
  | [] => line
  end.

Definition _strip_comment (line : string) : string :=
  strip_comment_from ["#"; "//"] line.

Definition replace_all (table : list (string * string)) (s : string) : string :=
  fold_left (fun acc wo => replace acc (fst wo) (snd wo)) table s.

Definition sub_all (table : list (regex * string)) (s : string) : string :=
  fold_left (fun acc pr => re_sub (fst pr) (snd pr) acc) table s.

Definition _tx_expr (expr : string) : string :=
  let s := " " ++ expr ++ " " in
  let s := replace_all WORD_OPS s in
  let s := sub_all COMPARATORS s in
  let s := replace_all LITERALS s in
  strip s.

Definition escape (inner : string) : string :=
  replace (replace inner (str1 BSL) (String BSL (str1 BSL)))
          (str1 DQ) (String BSL (str1 DQ)).

Definition _say_f (inner : string) (c : compiler) : compiler :=
  let inner := _tx_expr inner in
  let inner := escape inner in
  _emit ("print(f" ++ str1 DQ ++ inner ++ str1 DQ ++ ")") c.

Definition is_empty (s : string) : bool :=
  match s with EmptyString => true | _ => false end.

Definition open_block (header kind : string) (c : compiler) : compiler :=
  push kind (add_indent 1 (_emit header c)).

Definition def_args (text : string) : list string :=
  filter (fun a => negb (is_empty a)) (split_ws (strip text)).

(** The body of [_compile_line]; [self_compile_line] stands for the
    method itself at its one recursive call. *)
Definition compile_line_body (self_compile_line : string -> compiler -> outcome)
    (raw : string) (c : compiler) : outcome :=
  let line := strip raw in
  if is_empty line then Done c else
  let line := _strip_comment line in
  if is_empty line then Done c else
  (* end *)
  if re_fullmatch RE_END line then
    if is_empty_stack c
    then Raised (SyntaxError "'end' with no open block") c
    else pop c >>= fun c => Done (add_indent (-1) c)
  else
  (* say: f-string *)
  match re_match RE_SAY_F line with
  | Some m => Done (_say_f (group 1 m) c)
  | None =>
  (* say expr *)
  match re_match RE_SAY line with
  | Some m => Done (_emit ("print(" ++ _tx_expr (group 1 m) ++ ")") c)
  | None =>
  (* if ... then ... *)
  match re_match RE_IF_THEN line with
  | Some m =>
      let c := open_block ("if " ++ _tx_expr (group 1 m) ++ ":") "if" c in
      self_compile_line (strip (group 2 m)) c >>= fun c =>
      pop c >>= fun c => Done (add_indent (-1) c)
  | None =>
  (* if <cond> [optional ':'] *)
  match re_match RE_IF line with
  | Some m =>
      Done (open_block ("if " ++ _tx_expr (group 1 m) ++ ":") "if" c)
  | None =>
  (* repeat N times [do|:] *)
  match re_match RE_REPEAT line with
  | Some m =>
      Done (open_block ("for _ in range(int(" ++ _tx_expr (group 1 m) ++ ")):")
              "repeat" c)
  | None =>
  (* def name args [optional ':'] *)
  match re_match RE_DEF line with
  | Some m =>
      let name := group 1 m in
      let args := def_args (group 2 m) in
      Done (open_block ("def " ++ name ++ "(" ++ join ", " args ++ "):") "def" c)
  | None =>
  (* return expr *)
  match re_match RE_RETURN line with
  | Some m => Done (_emit ("return " ++ _tx_expr (group 1 m)) c)
  | None =>
  (* assignment: name is expr *)
  match re_match RE_ASSIGN line with
  | Some m => Done (_emit (group 1 m ++ " = " ++ _tx_expr (group 2 m)) c)
  | None =>
  (* Fallback: raw Python passthrough *)
  Done (_emit raw c)
  end end end end end end end end.

Fixpoint compile_line_fuel (fuel : nat) (raw : string) (c : compiler) : outcome :=
  match fuel with
  | O => OutOfFuel
  | S fuel' => compile_line_body (compile_line_fuel fuel') raw c
  end.

(** The recursive call is on a proper part of the line, so the length of
    the line bounds the depth (see [compile_line_fuel_enough]). *)
Definition _compile_line (raw : string) (c : compiler) : outcome :=
  compile_line_fuel (S (length raw)) raw c.

(** [filename or '<string>'] *)
Definition label (filename : option string) : string :=
  match filename with
  | Some (String a f) => String a f
  | _ => "<string>"
  end.

(** [type(e)(f"{e} (at {where})")] *)
Definition decorate (e : exn) (where_ : string) : exn :=
  match e with
  | SyntaxError m => SyntaxError (m ++ " (at " ++ where_ ++ ")")
  | IndexError m => IndexError (m ++ " (at " ++ where_ ++ ")")
  end.

(** The loop of [compile] over [enumerate(..., start=1)]. *)
Fixpoint run_lines (filename : option string) (idx : nat) (raws : list string)
    (c : compiler) : outcome :=
  match raws with
  | [] => Done c
  | raw :: more =>
      match _compile_line raw c with
      | Done c' => run_lines filename (S idx) more c'
      | Raised e c' =>
          Raised (decorate e (label filename ++ ":" ++ str_of_nat idx)) c'
      | OutOfFuel => OutOfFuel
      end
  end.

(** [self.lines.clear(); self.indent = 0; self.stack.clear()] *)
Definition reset (c : compiler) : compiler :=
  mkCompiler (indent_unit c) [] 0%Z [].

Inductive result : Type :=
| Returned (text : string)
| Failed (e : exn)
| Stuck.

(** [compile(source, filename=...)]: the object afterwards and what the call
    gave to its caller. *)
Definition compile (c : compiler) (source : string) (filename : option string)
    : compiler * result :=
  match run_lines filename 1 (splitlines source) (reset c) with
  | Done c' =>
      match stack c' with
      | [] => (c', Returned (join nl (lines c') ++ nl))
      | _ => (c', Failed (SyntaxError ("Missing 'end' for: " ++ join " > " (stack c'))))
      end
  | Raised e c' => (c', Failed e)
  | OutOfFuel => (reset c, Stuck)
  end.

(** ** Vocabulary for the statements

    The source classifies a line by the first pattern that matches; [classify]
    names that choice, and [dispatch] is the action taken for it.  Lemma
    [compile_line_body_dispatch] shows that the two together are the body of
    [_compile_line]. *)

Inductive shape : Type :=
| Blank
| EndMarker
| SayInterpolated (text : string)
| Say (expr : string)
| IfThen (cond stmt : string)
| IfBlockOpen (cond : string)
| RepeatOpen (count_expr : string)
| DefOpen (name args : string)
| Return (expr : string)
| Assignment (name expr : string)
| Passthrough.

Definition classify (raw : string) : shape :=
  let line := strip raw in
  if is_empty line then Blank else
  let line := _strip_comment line in
  if is_empty line then Blank else
  if re_fullmatch RE_END line then EndMarker else
  match re_match RE_SAY_F line with
  | Some m => SayInterpolated (group 1 m)
  | None =>
  match re_match RE_SAY line with
  | Some m => Say (group 1 m)
  | None =>
  match re_match RE_IF_THEN line with
  | Some m => IfThen (group 1 m) (strip (group 2 m))
  | None =>
  match re_match RE_IF line with
  | Some m => IfBlockOpen (group 1 m)
  | None =>
  match re_match RE_REPEAT line with
  | Some m => RepeatOpen (group 1 m)
  | None =>
  match re_match RE_DEF line with
  | Some m => DefOpen (group 1 m) (group 2 m)
  | None =>
  match re_match RE_RETURN line with
  | Some m => Return (group 1 m)
  | None =>
  match re_match RE_ASSIGN line with
  | Some m => Assignment (group 1 m) (group 2 m)
  | None => Passthrough
  end end end end end end end end.

Definition dispatch (self_compile_line : string -> compiler -> outcome)
    (sh : shape) (raw : string) (c : compiler) : outcome :=
  match sh with
  | Blank => Done c
  | EndMarker =>
      if is_empty_stack c
      then Raised (SyntaxError "'end' with no open block") c
      else pop c >>= fun c => Done (add_indent (-1) c)
  | SayInterpolated text => Done (_say_f text c)
  | Say expr => Done (_emit ("print(" ++ _tx_expr expr ++ ")") c)
  | IfThen cond stmt =>
      self_compile_line stmt (open_block ("if " ++ _tx_expr cond ++ ":") "if" c)
        >>= fun c => pop c >>= fun c => Done (add_indent (-1) c)
  | IfBlockOpen cond => Done (open_block ("if " ++ _tx_expr cond ++ ":") "if" c)
  | RepeatOpen n =>
      Done (open_block ("for _ in range(int(" ++ _tx_expr n ++ ")):") "repeat" c)
  | DefOpen name args =>
      Done (open_block ("def " ++ name ++ "(" ++ join ", " (def_args args) ++ "):")
              "def" c)
  | Return expr => Done (_emit ("return " ++ _tx_expr expr) c)
  | Assignment name expr => Done (_emit (name ++ " = " ++ _tx_expr expr) c)
  | Passthrough => Done (_emit raw c)
  end.

(** What a line does to the block structure.  An inline if-then does what
    its statement does. *)
Inductive effect : Type := Opens | Closes | Keeps.

Definition shape_effect (sh : shape) : effect :=
  match sh with
  | EndMarker => Closes
  | IfBlockOpen _ | RepeatOpen _ | DefOpen _ _ => Opens
  | _ => Keeps
  end.

Fixpoint effect_fuel (fuel : nat) (raw : string) : effect :=
  match fuel with
  | O => Keeps
  | S fuel' =>
      match classify raw with
      | IfThen _ stmt => effect_fuel fuel' stmt
      | sh => shape_effect sh
      end
  end.

Definition line_effect (raw : string) : effect :=
  effect_fuel (S (length raw)) raw.

(** Openers and [end] lines are matched like brackets. *)
Fixpoint matched_from (depth : nat) (es : list effect) : bool :=
  match es with
  | [] => depth =? 0
  | Opens :: more => matched_from (S depth) more
  | Closes :: more =>
      match depth with
      | O => false
      | S d => matched_from d more
      end
  | Keeps :: more => matched_from depth more
  end.

(** The statement of an inline if-then neither opens nor closes a block. *)
Definition plain_inline_if (raw : string) : bool :=
  match classify raw with
  | IfThen _ stmt =>
      match line_effect stmt with Keeps => true | _ => false end
  | _ => true
  end.

(** The invariant of the block/indent bookkeeping. *)
Definition indent_matches_stack (c : compiler) : Prop :=
  indent c = Z.of_nat (List.length (stack c)).

(** Escaping as the specification words it: each character on its own. *)
Definition escape_char (ch : ascii) : string :=
  if Ascii.eqb ch BSL then String BSL (str1 BSL)
  else if Ascii.eqb ch DQ then String BSL (str1 DQ)
  else str1 ch.

Fixpoint escape_each (s : string) : string :=
  match s with
  | String ch t => escape_char ch ++ escape_each t
  | EmptyString => EmptyString
  end.

(** [s] with every occurrence of the character [ch] replaced by [new]. *)
Fixpoint subst_char (ch : ascii) (new s : string) : string :=
  match s with
  | String c t => (if Ascii.eqb c ch then new else str1 c) ++ subst_char ch new t
  | EmptyString => EmptyString
  end.

(** The parity test of [_strip_comment] at the first occurrence of a token. *)
Definition quotes_closed (head : string) : bool :=
  even_count DQ head && even_count SQ head.

Definition first_fails (token line : string) : bool :=
  match find_split token line with
  | Some (head, _) => negb (quotes_closed head)
  | None => false
  end.

(** Source text from lines, each ended by a line feed. *)
Definition src (ls : list string) : string := join nl ls ++ nl.

(** ** Vocabulary of the proofs *)

(** Groups no longer than [n] characters. *)
Definition short_caps (n : nat) (new : caps) : Prop :=
  Forall (fun e => length (snd e) <= n) new.

(** What holds of the object an outcome carries. *)
Definition after (P : compiler -> Prop) (o : outcome) : Prop :=
  match o with
  | Done c' | Raised _ c' => P c'
  | OutOfFuel => False
  end.

(** What holds of the object after one line, however the line ends:
    the configuration is untouched and the invariant is kept. *)
Definition kept_from (c c' : compiler) : Prop :=
  indent_unit c' = indent_unit c /\
  (indent_matches_stack c -> indent_matches_stack c').

(** What [effect] means for one call on an object [c]. *)
Definition effect_holds (e : effect) (c : compiler) (o : outcome) : Prop :=
  match e with
  | Keeps =>
      exists c', o = Done c' /\ stack c' = stack c /\ indent c' = indent c
  | Opens =>
      exists c' kind, o = Done c' /\ stack c' = (stack c ++ [kind])%list /\
                      indent c' = (indent c + 1)%Z
  | Closes =>
      match stack c with
      | [] => exists e c', o = Raised e c'
      | _ => exists c', o = Done c' /\ stack c' = removelast (stack c) /\
                        indent c' = (indent c - 1)%Z
      end
  end.

(** A marker that cannot cut the line: absent, or failing the parity test
    at its first occurrence. *)
Definition out_of_play (tok line : string) : Prop :=
  contains tok line = false \/ first_fails tok line = true.

(** The comparator table in the order the specification words it,
    ["not equals"] tried before ["equals"]; [COMPARATORS] above has the two
    entries the other way round, as the source does. *)
Definition COMPARATORS_spec_order : list (regex * string) :=
  [ (word "is at least", ">="); (word "is at most", "<=");
    (word "is greater than", ">"); (word "is less than", "<");
    (word "not equals", "!="); (word "equals", "==") ].

(** The object [c] with the lines [pre] emitted before its own. *)
Definition prepend (pre : list string) (c : compiler) : compiler :=
  mkCompiler (indent_unit c) (app pre (lines c)) (indent c) (stack c).

Definition map_outcome (f : compiler -> compiler) (o : outcome) : outcome :=
  match o with
  | Done c => Done (f c)
  | Raised e c => Raised e (f c)
  | OutOfFuel => OutOfFuel
  end.

(** The two exceptions the line compiler can raise. *)
Definition line_error (e : exn) : Prop :=
  e = SyntaxError "'end' with no open block" \/
  e = IndexError "pop from empty list".

Fixpoint all_chars (p : ascii -> bool) (s : string) : bool :=
  match s with
  | String c t => p c && all_chars p t
  | EmptyString => true
  end.

Definition is_letter (c : ascii) : bool := is_upper c || is_lower c.

Fixpoint str_lower (s : string) : string :=
  match s with
  | String c t => String (lower c) (str_lower t)
  | EmptyString => EmptyString
  end.

(** Reading the body of a double-quoted literal: a backslash takes the next
    character with it; the body is whole when no double quote stands on its
    own and no backslash is left dangling. *)
Fixpoint literal_body_whole (s : string) (escaped : bool) : bool :=
  match s with
  | String c t =>
      if escaped then literal_body_whole t false
      else if Ascii.eqb c BSL then literal_body_whole t true
      else if Ascii.eqb c DQ then false
      else literal_body_whole t false
  | EmptyString => negb escaped
  end.

(** Undoing [escape_each]: a backslash stands for the character after it. *)
Fixpoint unescape (s : string) (escaped : bool) : string :=
  match s with
  | String c t =>
      if escaped then String c (unescape t false)
      else if Ascii.eqb c BSL then unescape t true
      else String c (unescape t false)
  | EmptyString => EmptyString
  end.

(** A line of white space only, or whose first visible character is
    ["#"]. *)
Definition blank_line (raw : string) : bool :=
  all_chars isspace raw || prefix "#" (lstrip raw).

Definition not_letter (c : ascii) : bool := negb (is_letter c).

(** The six characters at the head of [s] spell [equals] in some mix of
    upper and lower case. *)
Definition is_equals (s : string) : bool :=
  String.eqb (str_lower (take 6 s)) "equals".

(** The pattern of the ["equals"] entry matches at this position. *)
Definition equals_here (prev : option ascii) (s : string) : bool :=
  negb (word_before prev) && is_equals s && negb (word_after (drop 6 s)).

(** The pattern [r] matches at no position of [o], [prev] being the
    character before [o]. *)
Fixpoint match_free (r : regex) (prev : option ascii) (o : string) : bool :=
  match rmatch r accept_any prev o [] with
  | Some _ => false
  | None =>
      match o with
      | String c t => match_free r (Some c) t
      | EmptyString => true
      end
  end.

(** The character before the position [k] characters into [s]. *)
Fixpoint prev_after (prev : option ascii) (s : string) (k : nat) {struct k}
    : option ascii :=
  match k, s with
  | S k', String c t => prev_after (Some c) t k'
  | _, _ => prev
  end.

(** A character that [_say_f] leaves as it is. *)
Definition needs_no_escape (ch : ascii) : bool :=
  negb (Ascii.eqb ch BSL) && negb (Ascii.eqb ch DQ).

(** * Properties *)

(** ** Lengths of the string primitives *)

Lemma length_lstrip s : length (lstrip s) <= length s.
Proof.
  induction s as [|c t IH]; simpl; [lia|].
  destruct (isspace c); simpl; lia.
Qed.

Lemma length_rstrip s : length (rstrip s) <= length s.
Proof.
  induction s as [|c t IH]; simpl; [lia|].
  destruct (rstrip t); [destruct (isspace c)|]; simpl in *; lia.
Qed.

Lemma length_strip s : length (strip s) <= length s.
Proof.
  unfold strip. pose proof (length_rstrip (lstrip s)).
  pose proof (length_lstrip s). lia.
Qed.

Lemma length_take n s : length (take n s) <= n.
Proof.
  revert s; induction n as [|n IH]; intros [|c t]; simpl; try lia.
  specialize (IH t). lia.
Qed.

Lemma length_take_le n s : length (take n s) <= length s.
Proof.
  revert s; induction n as [|n IH]; intros [|c t]; simpl; try lia.
  specialize (IH t). lia.
Qed.

Lemma prefix_split tok s :
  prefix tok s = true -> s = tok ++ drop (length tok) s.
Proof.
  revert s; induction tok as [|a tok IH]; intros [|b s] H; simpl in *;
    try reflexivity; try discriminate.
  destruct (ascii_dec a b) as [->|]; [|discriminate].
  f_equal. apply IH, H.
Qed.

Lemma find_split_unfold tok s :
  find_split tok s =
  if prefix tok s then Some (EmptyString, drop (length tok) s)
  else match s with
       | String c t =>
           match find_split tok t with
           | Some (h, tl) => Some (String c h, tl)
           | None => None
           end
       | EmptyString => None
       end.
Proof. destruct s; reflexivity. Qed.

Lemma find_split_spec tok s head tail :
  find_split tok s = Some (head, tail) -> s = head ++ tok ++ tail.
Proof.
  revert head tail; induction s as [|c t IH]; intros head tail H;
    rewrite find_split_unfold in H;
    destruct (prefix tok _) eqn:P.
  - injection H as <- <-. apply (prefix_split _ _ P).
  - discriminate.
  - injection H as <- <-. apply (prefix_split _ _ P).
  - destruct (find_split tok t) as [[h tl]|]; [|discriminate].
    injection H as <- <-. simpl. f_equal. apply IH. reflexivity.
Qed.

Lemma length_append (a b : string) : length (a ++ b) = length a + length b.
Proof. induction a; simpl; congruence. Qed.

Lemma length_strip_comment_from tokens line :
  length (strip_comment_from tokens line) <= length line.
Proof.
  induction tokens as [|tok more IH]; simpl; [lia|].
  destruct (contains tok line); [|exact IH].
  unfold partition. destruct (find_split tok line) as [[h tl]|] eqn:F.
  - destruct (even_count DQ h && even_count SQ h); [|exact IH].
    apply find_split_spec in F. subst line.
    pose proof (length_rstrip h). rewrite length_append. lia.
  - destruct (even_count DQ line && even_count SQ line); [|exact IH].
    apply length_rstrip.
Qed.

Lemma length_strip_comment line : length (_strip_comment line) <= length line.
Proof. apply length_strip_comment_from. Qed.

(** ** The matcher only moves forward

    Whatever a pattern hands to its continuation is a suffix no longer than
    the text it started on, and every group it closes is a piece of that
    text. *)

Lemma short_caps_weaken n m new : n <= m -> short_caps n new -> short_caps m new.
Proof.
  intros Hnm H. unfold short_caps in *.
  eapply Forall_impl; [|exact H]. simpl. intros e He. lia.
Qed.

Lemma star_greedy_inv k K s :
  forall prev g res,
    star_greedy k K prev s g = Some res ->
    exists prev' s', K prev' s' g = Some res /\ length s' <= length s.
Proof.
  induction s as [|x t IH]; simpl; intros prev g res H.
  - eauto.
  - destruct (accepts k x); [|eauto].
    destruct (star_greedy k K (Some x) t g) eqn:E.
    + injection H as <-. apply IH in E. destruct E as (p' & s' & HK & Hl).
      exists p', s'. split; [exact HK | lia].
    + eauto.
Qed.

Lemma star_lazy_inv k K s :
  forall prev g res,
    star_lazy k K prev s g = Some res ->
    exists prev' s', K prev' s' g = Some res /\ length s' <= length s.
Proof.
  induction s as [|x t IH]; simpl; intros prev g res H.
  - destruct (K prev ""%string g) eqn:E; [|discriminate].
    injection H as <-. eauto.
  - destruct (K prev (String x t) g) eqn:E.
    + injection H as <-. eauto.
    + destruct (accepts k x); [|discriminate].
      apply IH in H. destruct H as (p' & s' & HK & Hl).
      exists p', s'. split; [exact HK | simpl; lia].
Qed.

Lemma star_inv gr k K s prev g res :
  star gr k K prev s g = Some res ->
  exists prev' s', K prev' s' g = Some res /\ length s' <= length s.
Proof.
  destruct gr; [apply star_greedy_inv | apply star_lazy_inv].
Qed.

Lemma rmatch_inv r :
  forall K prev s g res,
    rmatch r K prev s g = Some res ->
    exists prev' s' new,
      K prev' s' (new ++ g)%list = Some res /\
      length s' <= length s /\ short_caps (length s) new.
Proof.
  induction r as [|k|gr k|gr k|a IHa b IHb|a IHa b IHb|n a IHa| | |];
    intros K prev s g res H; simpl in H.
  - exists prev, s, []. repeat split; [exact H | lia | constructor].
  - destruct s as [|x t]; [discriminate|].
    destruct (accepts k x); [|discriminate].
    exists (Some x), t, []. repeat split; [exact H | simpl; lia | constructor].
  - apply star_inv in H. destruct H as (p' & s' & HK & Hl).
    exists p', s', []. repeat split; [exact HK | lia | constructor].
  - destruct s as [|x t]; [discriminate|].
    destruct (accepts k x); [|discriminate].
    apply star_inv in H. destruct H as (p' & s' & HK & Hl).
    exists p', s', []. repeat split; [exact HK | simpl; lia | constructor].
  - apply IHa in H. destruct H as (p1 & s1 & n1 & H1 & L1 & C1).
    apply IHb in H1. destruct H1 as (p2 & s2 & n2 & H2 & L2 & C2).
    exists p2, s2, (n2 ++ n1)%list. rewrite <- app_assoc.
    repeat split; [exact H2 | lia |].
    apply Forall_app. split; [|exact C1].
    eapply short_caps_weaken; [|exact C2]. exact L1.
  - destruct (rmatch a K prev s g) eqn:E.
    + injection H as <-. apply IHa in E. exact E.
    + apply IHb in H. exact H.
  - apply IHa in H. destruct H as (p1 & s1 & n1 & H1 & L1 & C1).
    exists p1, s1, ((n, take (length s - length s1) s) :: n1).
    repeat split; [exact H1 | lia |].
    constructor; [simpl; apply length_take_le | exact C1].
  - destruct prev; [discriminate|].
    exists None, s, []. repeat split; [exact H | lia | constructor].
  - destruct (at_eol s); [|discriminate].
    exists prev, s, []. repeat split; [exact H | lia | constructor].
  - destruct (xorb _ _); [|discriminate].
    exists prev, s, []. repeat split; [exact H | lia | constructor].
Qed.

Lemma group_short n m k : short_caps n m -> length (group k m) <= n.
Proof.
  unfold group. induction 1 as [|[j v] rest Hv _ IH]; simpl; [lia|].
  destruct (k =? j); [exact Hv | exact IH].
Qed.

(** A pattern that starts with [^] and two literal characters leaves at
    most the rest of the line to its groups. *)
Lemma anchored_groups_short a b rest line m k :
  re_match (Seq Bol (Seq (Seq (Chr a) (Chr b)) rest)) line = Some m ->
  length (group k m) + 2 <= length line.
Proof.
  unfold re_match.
  destruct (rmatch _ accept_any None line []) as [[s' g]|] eqn:E; [|discriminate].
  intros H; injection H as <-. simpl in E.
  destruct line as [|x [|y t]]; try discriminate;
    destruct (accepts a x); try discriminate.
  destruct (accepts b y); [|discriminate].
  apply rmatch_inv in E. destruct E as (p' & s2 & new & HK & _ & C).
  unfold accept_any in HK. injection HK as _ <-. rewrite app_nil_r.
  pose proof (group_short _ _ k C). simpl. lia.
Qed.

Lemma if_then_statement_short line m :
  re_match RE_IF_THEN line = Some m -> length (group 2 m) < length line.
Proof.
  intros H.
  pose proof (anchored_groups_short (CLit "i") (CLit "f") _ line m 2 H). lia.
Qed.

(** ** The body of [_compile_line] is classification followed by dispatch *)

Lemma compile_line_body_dispatch self_cl raw c :
  compile_line_body self_cl raw c = dispatch self_cl (classify raw) raw c.
Proof.
  unfold compile_line_body, classify.
  destruct (is_empty (strip raw)); [reflexivity|].
  destruct (is_empty (_strip_comment (strip raw))); [reflexivity|].
  destruct (re_fullmatch RE_END _); [reflexivity|].
  repeat (destruct (re_match _ _); [reflexivity|]).
  reflexivity.
Qed.

Lemma classify_if_then_shorter raw cond stmt :
  classify raw = IfThen cond stmt -> length stmt < length raw.
Proof.
  unfold classify.
  destruct (is_empty (strip raw)); [discriminate|].
  destruct (is_empty (_strip_comment (strip raw))); [discriminate|].
  destruct (re_fullmatch RE_END _); [discriminate|].
  destruct (re_match RE_SAY_F _); [discriminate|].
  destruct (re_match RE_SAY _); [discriminate|].
  destruct (re_match RE_IF_THEN _) as [m|] eqn:E.
  - intros H; injection H as _ <-.
    apply if_then_statement_short in E.
    pose proof (length_strip (group 2 m)).
    pose proof (length_strip_comment (strip raw)).
    pose proof (length_strip raw). lia.
  - repeat (destruct (re_match _ _); [discriminate|]). discriminate.
Qed.

(** ** Bookkeeping of the block stack and the indent level *)

Lemma length_removelast (A : Type) (l : list A) :
  l <> [] -> List.length l = S (List.length (removelast l)).
Proof.
  induction l as [|a [|b t] IH]; intros H; [congruence | reflexivity |].
  change (removelast (a :: b :: t)) with (a :: removelast (b :: t)).
  simpl List.length at 1 2. f_equal. apply IH. discriminate.
Qed.

Lemma pop_cases c :
  (stack c = [] /\ pop c = Raised (IndexError "pop from empty list") c) \/
  (stack c <> [] /\
   pop c = Done (mkCompiler (indent_unit c) (lines c) (indent c)
                   (removelast (stack c)))).
Proof.
  unfold pop. destruct (stack c); [left | right]; split;
    try reflexivity; discriminate.
Qed.

Lemma is_empty_stack_false c : is_empty_stack c = false -> stack c <> [].
Proof. unfold is_empty_stack. destruct (stack c); [discriminate|discriminate]. Qed.

Lemma is_empty_stack_true c : is_empty_stack c = true -> stack c = [].
Proof. unfold is_empty_stack. destruct (stack c); [reflexivity|discriminate]. Qed.

Lemma open_block_invariant header kind c :
  indent_matches_stack c -> indent_matches_stack (open_block header kind c).
Proof.
  unfold indent_matches_stack, open_block. simpl. intros ->.
  rewrite length_app. simpl. lia.
Qed.

Lemma close_block_invariant c :
  stack c <> [] -> indent_matches_stack c ->
  indent_matches_stack
    (add_indent (-1)
       (mkCompiler (indent_unit c) (lines c) (indent c) (removelast (stack c)))).
Proof.
  unfold indent_matches_stack. simpl. intros Hne ->.
  rewrite (length_removelast _ _ Hne). lia.
Qed.

Lemma kept_refl c : kept_from c c.
Proof. split; auto. Qed.

Lemma kept_trans c1 c2 c3 : kept_from c1 c2 -> kept_from c2 c3 -> kept_from c1 c3.
Proof. intros [U1 I1] [U2 I2]. split; [congruence | auto]. Qed.

Lemma kept_emit s c : kept_from c (_emit s c).
Proof. split; auto. Qed.

Lemma kept_open header kind c : kept_from c (open_block header kind c).
Proof. split; [reflexivity | apply open_block_invariant]. Qed.

Lemma kept_close c : after (kept_from c) (pop c >>= fun c => Done (add_indent (-1) c)).
Proof.
  destruct (pop_cases c) as [[_ ->]|[Hne ->]]; simpl.
  - apply kept_refl.
  - split; [reflexivity | apply close_block_invariant, Hne].
Qed.

Lemma after_weaken (P Q : compiler -> Prop) o :
  (forall c, P c -> Q c) -> after P o -> after Q o.
Proof. destruct o; simpl; auto. Qed.

Lemma compile_line_fuel_kept fuel :
  forall raw c, length raw < fuel ->
    after (kept_from c) (compile_line_fuel fuel raw c).
Proof.
  induction fuel as [|fuel IH]; intros raw c Hlen; [lia|].
  simpl. rewrite compile_line_body_dispatch.
  destruct (classify raw) eqn:Cl; simpl;
    try apply kept_refl; try apply kept_emit; try apply kept_open.
  - destruct (is_empty_stack c); [apply kept_refl | apply kept_close].
  - apply classify_if_then_shorter in Cl.
    specialize (IH stmt (open_block ("if " ++ _tx_expr cond ++ ":") "if" c)
                  ltac:(lia)).
    destruct (compile_line_fuel fuel stmt _) as [c2|e c2|]; simpl in *.
    + eapply after_weaken; [|apply kept_close].
      intros c3 H3. eapply kept_trans; [apply kept_open|].
      eapply kept_trans; [exact IH | exact H3].
    + eapply kept_trans; [apply kept_open | exact IH].
    + exact IH.
Qed.

(** The length of the line is fuel enough: [_compile_line] always returns
    or raises. *)
Lemma compile_line_fuel_enough raw c : _compile_line raw c <> OutOfFuel.
Proof.
  unfold _compile_line. intros H.
  pose proof (compile_line_fuel_kept (S (length raw)) raw c ltac:(lia)) as K.
  rewrite H in K. exact K.
Qed.

Lemma compile_line_kept raw c : after (kept_from c) (_compile_line raw c).
Proof. apply compile_line_fuel_kept. lia. Qed.

Lemma invariant_nonneg c : indent_matches_stack c -> (0 <= indent c)%Z.
Proof. unfold indent_matches_stack. intros ->. lia. Qed.

(** C3: starting from a state in which the indent level equals the depth of
    the block stack, a line whose processing returns (inline if-then
    expansion included) ends in such a state again, and the indent level is
    not negative there. *)
Theorem compile_line_preserves_invariant :
  forall raw c c',
    indent_matches_stack c ->
    _compile_line raw c = Done c' ->
    indent_matches_stack c' /\ (0 <= indent c')%Z.
Proof.
  intros raw c c' Hinv Hrun.
  pose proof (compile_line_kept raw c) as K. rewrite Hrun in K.
  destruct K as [_ K]. specialize (K Hinv).
  split; [exact K | apply invariant_nonneg, K].
Qed.

Lemma compile_line_preserves_invariant_witness :
  indent_matches_stack (new_compiler "  ") /\
  _compile_line "if a then repeat 2 times" (new_compiler "  ")
    = Done (mkCompiler "  " ["if a:"; "  for _ in range(int(2)):"] 1 ["if"]) /\
  indent_matches_stack
    (mkCompiler "  " ["if a:"; "  for _ in range(int(2)):"] 1 ["if"]) /\
  (0 <= 1)%Z.
Proof.
  assert (H0 : indent_matches_stack (new_compiler "  ")) by reflexivity.
  assert (H1 : _compile_line "if a then repeat 2 times" (new_compiler "  ")
    = Done (mkCompiler "  " ["if a:"; "  for _ in range(int(2)):"] 1 ["if"]))
    by (vm_compute; reflexivity).
  split; [exact H0 | split; [exact H1 |]].
  exact (compile_line_preserves_invariant _ _ _ H0 H1).
Defined.

(** ** What a line does to the block structure *)

Lemma effect_fuel_stable f1 :
  forall f2 raw, length raw < f1 -> length raw < f2 ->
    effect_fuel f1 raw = effect_fuel f2 raw.
Proof.
  induction f1 as [|f1 IH]; intros [|f2] raw H1 H2; try lia.
  simpl. destruct (classify raw) eqn:Cl; try reflexivity.
  apply classify_if_then_shorter in Cl. apply IH; lia.
Qed.

Lemma line_effect_unfold raw :
  line_effect raw =
  match classify raw with
  | IfThen _ stmt => line_effect stmt
  | sh => shape_effect sh
  end.
Proof.
  unfold line_effect.
  change (effect_fuel (S (length raw)) raw) with
    (match classify raw with
     | IfThen _ stmt => effect_fuel (length raw) stmt
     | sh => shape_effect sh
     end).
  destruct (classify raw) eqn:Cl; try reflexivity.
  apply classify_if_then_shorter in Cl. apply effect_fuel_stable; lia.
Qed.

Lemma close_block_effect c :
  effect_holds Closes c (pop c >>= fun c => Done (add_indent (-1) c)).
Proof.
  unfold effect_holds, pop. destruct (stack c) eqn:S; simpl.
  - eauto.
  - eexists; repeat split.
Qed.

Lemma compile_line_fuel_effect fuel :
  forall raw c, length raw < fuel ->
    effect_holds (line_effect raw) c (compile_line_fuel fuel raw c).
Proof.
  induction fuel as [|fuel IH]; intros raw c Hlen; [lia|].
  simpl. rewrite compile_line_body_dispatch, line_effect_unfold.
  destruct (classify raw) eqn:Cl; cbn [dispatch shape_effect effect_holds];
    try (eexists; repeat split; fail);
    try (eexists; eexists; repeat split; fail).
  - (* end *)
    destruct (is_empty_stack c) eqn:E.
    + rewrite (is_empty_stack_true _ E). eauto.
    + pose proof (close_block_effect c) as H. exact H.
  - (* if ... then ... *)
    apply classify_if_then_shorter in Cl.
    set (c1 := open_block ("if " ++ _tx_expr cond ++ ":") "if" c).
    specialize (IH stmt c1 ltac:(lia)).
    assert (S1 : stack c1 = (stack c ++ ["if"])%list) by reflexivity.
    assert (I1 : indent c1 = (indent c + 1)%Z) by reflexivity.
    clearbody c1.
    destruct (line_effect stmt); simpl in IH |- *.
    + destruct IH as (c2 & kind & -> & S2 & I2). simpl.
      unfold pop. rewrite S2, S1.
      destruct ((stack c ++ ["if"]) ++ [kind])%list eqn:E;
        [destruct (stack c); discriminate|].
      rewrite <- E. simpl. exists (add_indent (-1)
        (mkCompiler (indent_unit c2) (lines c2) (indent c2)
           (removelast ((stack c ++ ["if"]) ++ [kind])%list))), "if".
      split; [reflexivity|]. simpl. rewrite removelast_last. split; [reflexivity|lia].
    + rewrite S1 in IH.
      destruct (stack c ++ ["if"])%list eqn:E; [destruct (stack c); discriminate|].
      rewrite <- E in IH. rewrite removelast_last in IH.
      destruct IH as (c2 & -> & S2 & I2). simpl.
      pose proof (close_block_effect c2) as H. unfold effect_holds in H.
      rewrite S2 in H. destruct (stack c) eqn:Sc.
      * exact H.
      * destruct H as (c3 & -> & S3 & I3). exists c3.
        split; [reflexivity|]. split; [exact S3|lia].
    + destruct IH as (c2 & -> & S2 & I2). simpl.
      unfold pop. rewrite S2, S1.
      destruct (stack c ++ ["if"])%list eqn:E; [destruct (stack c); discriminate|].
      rewrite <- E. simpl. eexists. split; [reflexivity|]. simpl.
      rewrite removelast_last. split; [reflexivity|lia].
Qed.

Lemma compile_line_effect raw c :
  effect_holds (line_effect raw) c (_compile_line raw c).
Proof. apply compile_line_fuel_effect. lia. Qed.

(** C2, as amended: an inline if-then whose statement neither opens nor
    closes a block returns, and leaves the block stack and the indent level
    exactly as they were before the line. *)
Theorem inline_if_zero_net_effect :
  forall raw cond stmt c,
    classify raw = IfThen cond stmt ->
    line_effect stmt = Keeps ->
    exists c', _compile_line raw c = Done c' /\
               stack c' = stack c /\ indent c' = indent c.
Proof.
  intros raw cond stmt c Cl Hk.
  pose proof (compile_line_effect raw c) as H.
  rewrite line_effect_unfold, Cl, Hk in H. exact H.
Qed.

Lemma inline_if_zero_net_effect_witness :
  classify "if a is at least 5 then say a" = IfThen "a is at least 5" "say a" /\
  line_effect "say a" = Keeps /\
  exists c', _compile_line "if a is at least 5 then say a"
               (mkCompiler "  " ["def f():"] 1 ["def"]) = Done c' /\
             stack c' = ["def"] /\ indent c' = 1%Z.
Proof.
  assert (H0 : classify "if a is at least 5 then say a"
               = IfThen "a is at least 5" "say a") by (vm_compute; reflexivity).
  assert (H1 : line_effect "say a" = Keeps) by (vm_compute; reflexivity).
  split; [exact H0 | split; [exact H1 |]].
  exact (inline_if_zero_net_effect _ _ _
           (mkCompiler "  " ["def f():"] 1 ["def"]) H0 H1).
Defined.

(** C2, as stated, fails: an inline if-then whose statement is a block
    opener leaves a block open, and one whose statement is [end] closes the
    block that was open before the line. *)
Lemma inline_if_net_effect_counterexample :
  classify "if a then if b" = IfThen "a" "if b" /\
  _compile_line "if a then if b" (new_compiler "  ")
    = Done (mkCompiler "  " ["if a:"; "  if b:"] 1 ["if"]) /\
  classify "if a then end" = IfThen "a" "end" /\
  _compile_line "if a then end" (mkCompiler "  " ["def f():"] 1 ["def"])
    = Done (mkCompiler "  " ["def f():"; "  if a:"] 0 []).
Proof. vm_compute. repeat split. Qed.

(** ** The driver *)

Lemma run_lines_app filename pre :
  forall idx more c c1,
    run_lines filename idx pre c = Done c1 ->
    run_lines filename idx (pre ++ more) c
      = run_lines filename (idx + List.length pre) more c1.
Proof.
  induction pre as [|raw pre IH]; intros idx more c c1 H; simpl in *.
  - injection H as <-. f_equal. lia.
  - destruct (_compile_line raw c) as [c'|e c'|]; try discriminate.
    rewrite (IH _ more _ _ H). f_equal. lia.
Qed.

Lemma run_lines_kept filename raws :
  forall idx c, after (kept_from c) (run_lines filename idx raws c).
Proof.
  induction raws as [|raw more IH]; intros idx c; simpl.
  - apply kept_refl.
  - pose proof (compile_line_kept raw c) as K.
    destruct (_compile_line raw c) as [c'|e c'|]; simpl in *; try exact K.
    eapply after_weaken; [|apply IH].
    intros c2 H2. eapply kept_trans; [exact K | exact H2].
Qed.

(** Lines whose openers and closers are matched run to the end and leave
    no block open. *)
Lemma run_lines_matched filename raws :
  forall idx c,
    matched_from (List.length (stack c)) (map line_effect raws) = true ->
    exists c', run_lines filename idx raws c = Done c' /\ stack c' = [] /\
               indent c' = (indent c - Z.of_nat (List.length (stack c)))%Z.
Proof.
  induction raws as [|raw more IH]; intros idx c H; simpl in H |- *.
  - apply Nat.eqb_eq in H. exists c. split; [reflexivity|].
    split; [destruct (stack c); [reflexivity|discriminate] | rewrite H; lia].
  - pose proof (compile_line_effect raw c) as E.
    destruct (line_effect raw); simpl in E.
    + destruct E as (c1 & kind & -> & S1 & I1).
      assert (L : List.length (stack c1) = S (List.length (stack c)))
        by (rewrite S1, length_app; simpl; lia).
      rewrite <- L in H. destruct (IH (S idx) c1 H) as (c' & R & S' & I').
      exists c'. split; [exact R | split; [exact S' | lia]].
    + destruct (stack c) as [|k st] eqn:Sc; [discriminate|].
      destruct E as (c1 & -> & S1 & I1).
      assert (L : List.length (k :: st) = S (List.length (stack c1)))
        by (rewrite S1; apply length_removelast; discriminate).
      simpl in L. injection L as L. simpl in H. rewrite L in H.
      destruct (IH (S idx) c1 H) as (c' & R & S' & I').
      exists c'. split; [exact R | split; [exact S' |]].
      rewrite I', I1. simpl List.length. lia.
    + destruct E as (c1 & -> & S1 & I1). rewrite <- S1 in H.
      destruct (IH (S idx) c1 H) as (c' & R & S' & I').
      exists c'. split; [exact R | split; [exact S' |]].
      rewrite I', I1, S1. reflexivity.
Qed.

Lemma plain_inline_if_effect raw :
  plain_inline_if raw = true -> line_effect raw = shape_effect (classify raw).
Proof.
  unfold plain_inline_if. rewrite line_effect_unfold.
  destruct (classify raw); try reflexivity.
  destruct (line_effect stmt); [discriminate|discriminate|reflexivity].
Qed.

Lemma plain_lines_effects raws :
  forallb plain_inline_if raws = true ->
  map line_effect raws = map (fun raw => shape_effect (classify raw)) raws.
Proof.
  induction raws as [|raw more IH]; simpl; [reflexivity|].
  intros H. apply andb_prop in H. destruct H as [H1 H2].
  rewrite (plain_inline_if_effect _ H1), (IH H2). reflexivity.
Qed.

(** C6, as amended: when the block-opening lines (block if, repeat, def)
    and the [end] lines of the input are matched, and no inline if-then
    carries an [end] or a block opener as its statement, [compile] returns
    the compiled text and the indent level is 0 afterwards. *)
Theorem compile_matched_succeeds :
  forall c source filename,
    forallb plain_inline_if (splitlines source) = true ->
    matched_from 0
      (map (fun raw => shape_effect (classify raw)) (splitlines source)) = true ->
    exists c', compile c source filename
                 = (c', Returned (join nl (lines c') ++ nl)) /\
               indent c' = 0%Z /\ stack c' = [].
Proof.
  intros c source filename Hplain Hm.
  rewrite <- (plain_lines_effects _ Hplain) in Hm.
  destruct (run_lines_matched filename (splitlines source) 1 (reset c) Hm)
    as (c' & R & S' & I').
  exists c'. unfold compile. rewrite R, S'.
  split; [reflexivity | split; [exact I' | reflexivity]].
Qed.

Lemma compile_matched_succeeds_witness :
  forallb plain_inline_if
    (splitlines (src ["def f a"; "if a equals 1 then say a"; "repeat 2 times";
                      "return a"; "end"; "end"])) = true /\
  matched_from 0
    (map (fun raw => shape_effect (classify raw))
       (splitlines (src ["def f a"; "if a equals 1 then say a";
                         "repeat 2 times"; "return a"; "end"; "end"]))) = true /\
  exists c', compile (new_compiler "  ")
               (src ["def f a"; "if a equals 1 then say a"; "repeat 2 times";
                     "return a"; "end"; "end"]) None
               = (c', Returned (join nl (lines c') ++ nl)) /\
             indent c' = 0%Z /\ stack c' = [].
Proof.
  assert (H0 : forallb plain_inline_if
    (splitlines (src ["def f a"; "if a equals 1 then say a"; "repeat 2 times";
                      "return a"; "end"; "end"])) = true)
    by (vm_compute; reflexivity).
  assert (H1 : matched_from 0
    (map (fun raw => shape_effect (classify raw))
       (splitlines (src ["def f a"; "if a equals 1 then say a";
                         "repeat 2 times"; "return a"; "end"; "end"]))) = true)
    by (vm_compute; reflexivity).
  split; [exact H0 | split; [exact H1 |]].
  exact (compile_matched_succeeds (new_compiler "  ") _ None H0 H1).
Defined.

(** C6, as stated, fails: in this input the only block opener, [def f],
    has its matching [end] line, yet [compile] raises, because the inline
    if-then of the second line closes the block of the first. *)
Lemma compile_matched_counterexample :
  map classify (splitlines (src ["def f"; "if a then end"; "end"]))
    = [DefOpen "f" ""; IfThen "a" "end"; EndMarker] /\
  matched_from 0
    (map (fun raw => shape_effect (classify raw))
       (splitlines (src ["def f"; "if a then end"; "end"]))) = true /\
  snd (compile (new_compiler "  ") (src ["def f"; "if a then end"; "end"]) None)
    = Failed (SyntaxError "'end' with no open block (at <string>:3)").
Proof. vm_compute. repeat split. Qed.

(** C4: when all lines have been processed and a block is still open,
    [compile] raises the error whose message lists the kinds on the block
    stack from the first opened (the outermost) to the last, joined by
    [" > "]; no text is returned. *)
Theorem compile_missing_end :
  forall c source filename c',
    run_lines filename 1 (splitlines source) (reset c) = Done c' ->
    stack c' <> [] ->
    compile c source filename
      = (c', Failed (SyntaxError ("Missing 'end' for: " ++ join " > " (stack c')))).
Proof.
  intros c source filename c' R Hne. unfold compile. rewrite R.
  destruct (stack c'); [congruence | reflexivity].
Qed.

Lemma compile_missing_end_witness :
  run_lines None 1 (splitlines (src ["def f x"; "repeat 3 times"; "if x"; "say x"; "end"]))
    (reset (new_compiler "  "))
    = Done (mkCompiler "  "
              ["def f(x):"; "  for _ in range(int(3)):"; "    if x:";
               "      print(x)"] 2 ["def"; "repeat"]) /\
  ["def"; "repeat"] <> [] /\
  compile (new_compiler "  ")
    (src ["def f x"; "repeat 3 times"; "if x"; "say x"; "end"]) None
    = (mkCompiler "  "
         ["def f(x):"; "  for _ in range(int(3)):"; "    if x:";
          "      print(x)"] 2 ["def"; "repeat"],
       Failed (SyntaxError "Missing 'end' for: def > repeat")).
Proof.
  assert (H0 : run_lines None 1
    (splitlines (src ["def f x"; "repeat 3 times"; "if x"; "say x"; "end"]))
    (reset (new_compiler "  "))
    = Done (mkCompiler "  "
              ["def f(x):"; "  for _ in range(int(3)):"; "    if x:";
               "      print(x)"] 2 ["def"; "repeat"]))
    by (vm_compute; reflexivity).
  assert (H1 : ["def"; "repeat"] <> @nil string) by discriminate.
  split; [exact H0 | split; [exact H1 |]].
  exact (compile_missing_end (new_compiler "  ") _ None _ H0 H1).
Defined.

(** A block opener puts its kind at the end of the stack, so the stack
    reads from the outermost block to the innermost. *)
Lemma opener_appends raw c :
  shape_effect (classify raw) = Opens ->
  exists c' kind, _compile_line raw c = Done c' /\
                  stack c' = (stack c ++ [kind])%list.
Proof.
  intros H. pose proof (compile_line_effect raw c) as E.
  rewrite line_effect_unfold in E.
  destruct (classify raw); try discriminate; simpl in E;
    destruct E as (c' & kind & R & S' & _); eauto.
Qed.

Lemma end_without_block raw c :
  classify raw = EndMarker -> stack c = [] ->
  _compile_line raw c = Raised (SyntaxError "'end' with no open block") c.
Proof.
  intros Cl Hs. unfold _compile_line. simpl.
  rewrite compile_line_body_dispatch, Cl. simpl.
  unfold is_empty_stack. rewrite Hs. reflexivity.
Qed.

(** C5: a bare [end] at a point where no block is open makes [compile]
    fail with the unexpected-end error, whose message carries the label of
    the file and the 1-based number of that line,
    ["<message> (at <label>:<line>)"]. *)
Theorem compile_unexpected_end :
  forall c source filename pre raw post c1,
    splitlines source = (pre ++ raw :: post)%list ->
    run_lines filename 1 pre (reset c) = Done c1 ->
    stack c1 = [] ->
    classify raw = EndMarker ->
    compile c source filename
      = (c1, Failed (SyntaxError
               ("'end' with no open block" ++ " (at "
                ++ (label filename ++ ":" ++ str_of_nat (S (List.length pre)))
                ++ ")"))).
Proof.
  intros c source filename pre raw post c1 Hsplit Hpre Hs Cl.
  unfold compile. rewrite Hsplit, (run_lines_app _ _ _ _ _ _ Hpre).
  simpl run_lines. rewrite (end_without_block _ _ Cl Hs). reflexivity.
Qed.

Lemma compile_unexpected_end_witness :
  splitlines (src ["if x"; "say x"; "end"; "  END  # done"; "say y"])
    = (["if x"; "say x"; "end"] ++ "  END  # done" :: ["say y"])%list /\
  run_lines (Some "prog.monthy") 1 ["if x"; "say x"; "end"]
    (reset (new_compiler "  "))
    = Done (mkCompiler "  " ["if x:"; "  print(x)"] 0 []) /\
  stack (mkCompiler "  " ["if x:"; "  print(x)"] 0 []) = [] /\
  classify "  END  # done" = EndMarker /\
  compile (new_compiler "  ")
    (src ["if x"; "say x"; "end"; "  END  # done"; "say y"])
    (Some "prog.monthy")
    = (mkCompiler "  " ["if x:"; "  print(x)"] 0 [],
       Failed (SyntaxError "'end' with no open block (at prog.monthy:4)")).
Proof.
  assert (H0 : splitlines (src ["if x"; "say x"; "end"; "  END  # done"; "say y"])
    = (["if x"; "say x"; "end"] ++ "  END  # done" :: ["say y"])%list)
    by (vm_compute; reflexivity).
  assert (H1 : run_lines (Some "prog.monthy") 1 ["if x"; "say x"; "end"]
    (reset (new_compiler "  "))
    = Done (mkCompiler "  " ["if x:"; "  print(x)"] 0 []))
    by (vm_compute; reflexivity).
  assert (H2 : stack (mkCompiler "  " ["if x:"; "  print(x)"] 0 []) = [])
    by reflexivity.
  assert (H3 : classify "  END  # done" = EndMarker) by (vm_compute; reflexivity).
  split; [exact H0 | split; [exact H1 | split; [exact H2 | split; [exact H3 |]]]].
  exact (compile_unexpected_end (new_compiler "  ") _ (Some "prog.monthy")
           _ _ _ _ H0 H1 H2 H3).
Defined.

(** ** Reuse of a compiler object *)

Lemma compile_from_reset c source filename :
  compile c source filename
    = compile (new_compiler (indent_unit c)) source filename.
Proof. reflexivity. Qed.

Lemma compile_keeps_indent_unit c source filename :
  indent_unit (fst (compile c source filename)) = indent_unit c.
Proof.
  unfold compile.
  pose proof (run_lines_kept filename (splitlines source) 1 (reset c)) as K.
  destruct (run_lines _ _ _ _) as [c'|e c'|]; simpl in K.
  - destruct K as [U _]. destruct (stack c'); exact U.
  - destruct K as [U _]. exact U.
  - reflexivity.
Qed.

(** [compile] always returns a text or raises. *)
Lemma compile_never_stuck c source filename :
  snd (compile c source filename) <> Stuck.
Proof.
  unfold compile.
  pose proof (run_lines_kept filename (splitlines source) 1 (reset c)) as K.
  destruct (run_lines _ _ _ _) as [c'|e c'|]; simpl in K.
  - destruct (stack c'); discriminate.
  - discriminate.
  - destruct K.
Qed.

(** C9: a [compile] call on an object that has already compiled another
    input, whether that call returned or raised, gives what the same call
    gives on a fresh object with the same indent unit (the result and the
    object afterwards). *)
Theorem compile_independent_of_history :
  forall c source1 filename1 source2 filename2,
    compile (fst (compile c source1 filename1)) source2 filename2
      = compile (new_compiler (indent_unit c)) source2 filename2.
Proof.
  intros c source1 filename1 source2 filename2.
  rewrite compile_from_reset, compile_keeps_indent_unit. reflexivity.
Qed.

(** ** The expression rewriter *)

(** C1 does not hold of the source: its table tries ["equals"] first, so
    ["a not equals b"] is rewritten to ["a not == b"] and the ["not equals"]
    entry never applies; in the order the claim states the result is
    ["a != b"]. *)
Theorem tx_expr_not_equals_missplit :
  _tx_expr "a not equals b" = "a not == b" /\
  map snd COMPARATORS = [">="; "<="; ">"; "<"; "=="; "!="] /\
  strip (replace_all LITERALS
           (sub_all COMPARATORS_spec_order
              (replace_all WORD_OPS " a not equals b "))) = "a != b".
Proof. vm_compute. repeat split. Qed.

(** ** The comment stripper *)

Lemma contains_find_split tok line :
  contains tok line = true ->
  exists head tail, find_split tok line = Some (head, tail).
Proof.
  unfold contains. destruct (find_split tok line) as [[h t]|]; [eauto|discriminate].
Qed.

Lemma strip_comment_from_cases tokens line :
  strip_comment_from tokens line = line \/
  exists token head tail,
    In token tokens /\ find_split token line = Some (head, tail) /\
    quotes_closed head = true /\
    strip_comment_from tokens line = rstrip head.
Proof.
  induction tokens as [|tok more IH]; simpl; [left; reflexivity|].
  assert (Hmore :
    strip_comment_from more line = line \/
    exists token head tail,
      (tok = token \/ In token more) /\
      find_split token line = Some (head, tail) /\
      quotes_closed head = true /\
      strip_comment_from more line = rstrip head).
  { destruct IH as [IH|(t & h & tl & Hin & Hf & Hq & Hr)]; [left; exact IH|].
    right. exists t, h, tl. auto. }
  destruct (contains tok line) eqn:C; [|exact Hmore].
  destruct (contains_find_split _ _ C) as (h & tl & F).
  unfold partition. rewrite F.
  fold (quotes_closed h). destruct (quotes_closed h) eqn:Q; [|exact Hmore].
  right. exists tok, h, tl. auto.
Qed.

Lemma even_count_spec ch s : even_count ch s = true <-> count ch s mod 2 = 0.
Proof. unfold even_count. apply Nat.eqb_eq. Qed.

(** C7: whenever the stripper changes a line, it has cut it at a ["#"] or
    ["//"] that is preceded by an even number of double quotes and an even
    number of single quotes, and has right-trimmed what was before it.  A
    marker inside a quoted region leaves the line as it is; a marker after
    plain text cuts it. *)
Theorem strip_comment_only_outside_quotes :
  (forall line,
     _strip_comment line = line \/
     exists token head tail,
       (token = "#" \/ token = "//") /\
       line = head ++ token ++ tail /\
       count DQ head mod 2 = 0 /\ count SQ head mod 2 = 0 /\
       _strip_comment line = rstrip head) /\
  _strip_comment ("say " ++ str1 DQ ++ "a # b" ++ str1 DQ)
    = "say " ++ str1 DQ ++ "a # b" ++ str1 DQ /\
  _strip_comment "say x # comment" = "say x".
Proof.
  split; [|split; vm_compute; reflexivity].
  intros line. unfold _strip_comment.
  destruct (strip_comment_from_cases ["#"; "//"] line)
    as [H|(t & h & tl & Hin & Hf & Hq & Hr)]; [left; exact H|].
  right. exists t, h, tl.
  unfold quotes_closed in Hq. apply andb_prop in Hq. destruct Hq as [Hd Hs].
  apply even_count_spec in Hd. apply even_count_spec in Hs.
  repeat split; try assumption.
  - simpl in Hin. destruct Hin as [<-|[<-|[]]]; auto.
  - apply find_split_spec, Hf.
Qed.

(** A marker whose first occurrence fails the parity test is passed over
    just as a marker that does not occur. *)
Lemma strip_comment_from_skip tok more line :
  first_fails tok line = true ->
  strip_comment_from (tok :: more) line = strip_comment_from more line.
Proof.
  unfold first_fails. simpl. unfold contains, partition.
  destruct (find_split tok line) as [[h tl]|]; [|discriminate].
  fold (quotes_closed h). destruct (quotes_closed h); [discriminate|reflexivity].
Qed.

Lemma strip_comment_from_absent tok more line :
  contains tok line = false ->
  strip_comment_from (tok :: more) line = strip_comment_from more line.
Proof. simpl. intros ->. reflexivity. Qed.

Lemma strip_comment_from_out_of_play tok more line :
  out_of_play tok line ->
  strip_comment_from (tok :: more) line = strip_comment_from more line.
Proof.
  intros [H|H]; [apply strip_comment_from_absent | apply strip_comment_from_skip];
    exact H.
Qed.

Lemma strip_comment_from_remove tok line tokens :
  out_of_play tok line ->
  strip_comment_from tokens line
    = strip_comment_from (remove string_dec tok tokens) line.
Proof.
  intros H. induction tokens as [|t more IH]; [reflexivity|].
  cbn [remove]. destruct (string_dec tok t) as [<-|Hne].
  - rewrite (strip_comment_from_out_of_play _ _ _ H). exact IH.
  - simpl. rewrite IH. reflexivity.
Qed.

Lemma strip_comment_from_all_out tokens line :
  Forall (fun t => out_of_play t line) tokens ->
  strip_comment_from tokens line = line.
Proof.
  induction 1 as [|t more Ht _ IH]; [reflexivity|].
  rewrite (strip_comment_from_out_of_play _ _ _ Ht). exact IH.
Qed.

(** C10: only the first occurrence of a marker is examined.  If the text
    before the first occurrence of ["#"] (or of ["//"]) fails the parity
    test, the line is treated as if that marker were not among the markers
    at all, whatever follows its first occurrence; and when the other marker
    is absent or fails at its first occurrence too, the line goes on
    unchanged, comment text included. *)
Theorem strip_comment_first_occurrence_only :
  forall token line,
    In token ["#"; "//"] ->
    first_fails token line = true ->
    _strip_comment line
      = strip_comment_from (remove string_dec token ["#"; "//"]) line /\
    (Forall (fun t => out_of_play t line) (remove string_dec token ["#"; "//"]) ->
     _strip_comment line = line).
Proof.
  intros token line _ H. unfold _strip_comment.
  rewrite (strip_comment_from_remove token line ["#"; "//"] (or_intror H)).
  split; [reflexivity|]. apply strip_comment_from_all_out.
Qed.

Lemma strip_comment_first_occurrence_only_witness :
  In "#" ["#"; "//"] /\
  first_fails "#" "say '#' # c" = true /\
  ("say '#' # c" = "say '#' " ++ "#" ++ " c" /\
   quotes_closed "say '#' " = true) /\
  _strip_comment "say '#' # c" = strip_comment_from ["//"] "say '#' # c" /\
  _strip_comment "say '#' # c" = "say '#' # c".
Proof.
  assert (H0 : In "#" ["#"; "//"]) by (left; reflexivity).
  assert (H1 : first_fails "#" "say '#' # c" = true) by (vm_compute; reflexivity).
  split; [exact H0 | split; [exact H1 | split; [split; vm_compute; reflexivity |]]].
  destruct (strip_comment_first_occurrence_only "#" "say '#' # c" H0 H1)
    as [E1 E2].
  split; [exact E1 | apply E2].
  repeat constructor.
Defined.

(** ** Interpolated say *)

(** Replacing a one-character text rewrites the string character by
    character. *)
Lemma replace_one_char ch new s :
  replace s (str1 ch) new = subst_char ch new s.
Proof.
  unfold replace, str1.
  induction s as [|c t IH]; [reflexivity|].
  cbn [replace_go subst_char prefix length Nat.sub].
  destruct (ascii_dec ch c) as [->|Hne].
  - rewrite Ascii.eqb_refl. destruct t; cbn [prefix]; rewrite IH; reflexivity.
  - destruct (Ascii.eqb c ch) eqn:E;
      [apply Ascii.eqb_eq in E; congruence|].
    rewrite IH. reflexivity.
Qed.

Lemma str_app_assoc (a b c : string) : a ++ (b ++ c) = (a ++ b) ++ c.
Proof. induction a as [|x a IH]; simpl; congruence. Qed.

Lemma subst_char_app ch new a b :
  subst_char ch new (a ++ b) = subst_char ch new a ++ subst_char ch new b.
Proof.
  induction a as [|c t IH]; [reflexivity|].
  cbn [subst_char append]. rewrite IH. apply str_app_assoc.
Qed.

(** The two replacements of [_say_f], backslash first, escape each
    backslash and each double quote once and leave every other character
    (braces included) alone. *)
Lemma escape_escape_each s : escape s = escape_each s.
Proof.
  unfold escape. rewrite !replace_one_char.
  induction s as [|c t IH]; [reflexivity|].
  cbn [subst_char escape_each]. rewrite subst_char_app, IH. f_equal.
  unfold escape_char.
  destruct (Ascii.eqb c BSL) eqn:E.
  - reflexivity.
  - unfold str1. cbn [subst_char]. destruct (Ascii.eqb c DQ); reflexivity.
Qed.

Lemma escape_each_app a b :
  escape_each (a ++ b) = escape_each a ++ escape_each b.
Proof.
  induction a as [|c t IH]; [reflexivity|].
  cbn [append escape_each]. rewrite IH. apply str_app_assoc.
Qed.

Lemma escape_char_plain ch : needs_no_escape ch = true -> escape_char ch = str1 ch.
Proof.
  unfold needs_no_escape, escape_char. intros H.
  apply andb_prop in H. destruct H as [H1 H2].
  apply negb_true_iff in H1. apply negb_true_iff in H2.
  rewrite H1, H2. reflexivity.
Qed.

Lemma escape_each_plain e :
  all_chars needs_no_escape e = true -> escape_each e = e.
Proof.
  induction e as [|c t IH]; [reflexivity|].
  cbn [all_chars escape_each]. intros H.
  apply andb_prop in H. destruct H as [Hc Ht].
  rewrite (escape_char_plain _ Hc), (IH Ht). reflexivity.
Qed.

(** C8, as amended: a line classified as [say: <text>] returns after
    appending exactly one line to the output, at the current indent and
    with the block structure untouched: the formatted print whose template
    is the rewritten text with each backslash and each double quote escaped
    once, wherever it stands, and every other character, braces included,
    as it is.  A brace-embedded expression free of backslashes and double
    quotes therefore stands in the template as it is. *)
Theorem say_f_emits_escaped_template :
  forall raw text c,
    classify raw = SayInterpolated text ->
    exists c',
      _compile_line raw c = Done c' /\
      lines c'
        = app (lines c)
            [str_mul (indent_unit c) (indent c) ++ "print(f" ++ str1 DQ
             ++ escape_each (_tx_expr text) ++ str1 DQ ++ ")"] /\
      indent c' = indent c /\ stack c' = stack c /\
      indent_unit c' = indent_unit c /\
      (forall pre e post,
         _tx_expr text = pre ++ "{" ++ e ++ "}" ++ post ->
         all_chars needs_no_escape e = true ->
         escape_each (_tx_expr text)
           = escape_each pre ++ "{" ++ e ++ "}" ++ escape_each post) /\
      (forall ch, needs_no_escape ch = true -> escape_char ch = str1 ch) /\
      escape_char BSL = String BSL (str1 BSL) /\
      escape_char DQ = String BSL (str1 DQ).
Proof.
  intros raw text c Cl.
  exists (_say_f text c). split; [|split; [|split; [|split; [|split; [|split]]]]].
  - unfold _compile_line. simpl.
    rewrite compile_line_body_dispatch, Cl. reflexivity.
  - unfold _say_f, _emit. cbn [lines]. rewrite escape_escape_each. reflexivity.
  - reflexivity.
  - reflexivity.
  - reflexivity.
  - intros pre e post E He. rewrite E, escape_each_app.
    cbn [append escape_each]. rewrite escape_each_app.
    cbn [append escape_each]. rewrite (escape_each_plain _ He). reflexivity.
  - split; [exact escape_char_plain | split; reflexivity].
Qed.

Lemma say_f_emits_escaped_template_witness :
  classify ("say: {n plus 1} is " ++ str1 DQ ++ "n\1" ++ str1 DQ)
    = SayInterpolated ("{n plus 1} is " ++ str1 DQ ++ "n\1" ++ str1 DQ) /\
  exists c',
    _compile_line ("say: {n plus 1} is " ++ str1 DQ ++ "n\1" ++ str1 DQ)
      (mkCompiler "  " ["def f(n):"] 1 ["def"]) = Done c' /\
    lines c'
      = ["def f(n):";
         "  print(f" ++ str1 DQ ++ "{n + 1} is \" ++ str1 DQ ++ "n\\1\" ++ str1 DQ
         ++ str1 DQ ++ ")"] /\
    indent c' = 1%Z /\ stack c' = ["def"].
Proof.
  assert (H0 : classify ("say: {n plus 1} is " ++ str1 DQ ++ "n\1" ++ str1 DQ)
    = SayInterpolated ("{n plus 1} is " ++ str1 DQ ++ "n\1" ++ str1 DQ))
    by (vm_compute; reflexivity).
  split; [exact H0|].
  destruct (say_f_emits_escaped_template _ _ (mkCompiler "  " ["def f(n):"] 1 ["def"]) H0)
    as (c' & R & L & I & S & _).
  exists c'. split; [exact R | split; [| split; [exact I | exact S]]].
  rewrite L. vm_compute. reflexivity.
Defined.

(** C8, as stated, fails in its first half: double quotes inside a
    brace-embedded expression are escaped like any others, so the
    expression [d["k"]] does not stand in the emitted statement as it was
    written, although the rewriter left it alone. *)
Lemma say_f_embedded_quote_counterexample :
  classify ("say: {d[" ++ str1 DQ ++ "k" ++ str1 DQ ++ "]}")
    = SayInterpolated ("{d[" ++ str1 DQ ++ "k" ++ str1 DQ ++ "]}") /\
  _tx_expr ("{d[" ++ str1 DQ ++ "k" ++ str1 DQ ++ "]}")
    = "{d[" ++ str1 DQ ++ "k" ++ str1 DQ ++ "]}" /\
  _compile_line ("say: {d[" ++ str1 DQ ++ "k" ++ str1 DQ ++ "]}") (new_compiler "  ")
    = Done (mkCompiler "  "
              ["print(f" ++ str1 DQ ++ "{d[\" ++ str1 DQ ++ "k\" ++ str1 DQ ++ "]}"
               ++ str1 DQ ++ ")"] 0 []) /\
  contains ("{d[" ++ str1 DQ ++ "k" ++ str1 DQ ++ "]}")
    ("print(f" ++ str1 DQ ++ "{d[\" ++ str1 DQ ++ "k\" ++ str1 DQ ++ "]}"
     ++ str1 DQ ++ ")") = false.
Proof. vm_compute. repeat split. Qed.

(** C10, as stated, fails in its last part: here the first ["#"] stands
    inside quotes and a later ["#"] has closed quotes before it; the later
    ["#"] does not cut the line, but ["//"] does, and the text after the
    later ["#"] is gone before classification. *)
Lemma strip_comment_other_marker_counterexample :
  first_fails "#" "say '#' // 2 # note" = true /\
  ("say '#' // 2 # note" = "say '#' // 2 " ++ "#" ++ " note" /\
   quotes_closed "say '#' // 2 " = true) /\
  _strip_comment "say '#' // 2 # note" = "say '#'" /\
  classify "say '#' // 2 # note" = Say "'#'".
Proof. vm_compute. repeat split. Qed.

(** ** Sample runs *)

Example block_if_sample :
  snd (compile (new_compiler "    ") (src ["if x equals 1"; "say x"; "end"]) None)
    = Returned (src ["if x == 1:"; "    print(x)"]).
Proof. vm_compute. reflexivity. Qed.

Example expressions_sample :
  snd (compile (new_compiler "    ")
         (src ["x is 3 plus 4"; "if a is at least 5 then say a"]) None)
    = Returned (src ["x = 3 + 4"; "if a >= 5:"; "    print(a)"]).
Proof. vm_compute. reflexivity. Qed.

Example passthrough_sample :
  snd (compile (new_compiler "  ")
         (src ["def f a b:"; "  import os  # raw"; "return true"; "end"]) None)
    = Returned (src ["def f(a, b):"; "    import os  # raw"; "  return True"]).
Proof. vm_compute. reflexivity. Qed.

Example inline_if_pops_empty_stack_sample :
  snd (compile (new_compiler "  ") (src ["if a then end"]) (Some ""))
    = Failed (IndexError "pop from empty list (at <string>:1)").
Proof. vm_compute. reflexivity. Qed.

(** * Further properties of the line compiler *)

(** ** Depth of recursion *)

Lemma compile_line_fuel_stable f1 :
  forall f2 raw c, length raw < f1 -> length raw < f2 ->
    compile_line_fuel f1 raw c = compile_line_fuel f2 raw c.
Proof.
  induction f1 as [|f1 IH]; intros [|f2] raw c H1 H2; try lia.
  simpl. rewrite !compile_line_body_dispatch.
  destruct (classify raw) eqn:Cl; try reflexivity.
  apply classify_if_then_shorter in Cl. cbn [dispatch].
  rewrite (IH f2 stmt _ ltac:(lia) ltac:(lia)). reflexivity.
Qed.

(** One step of [_compile_line], with the recursive call again a call of
    [_compile_line]. *)
Lemma compile_line_unfold raw c :
  _compile_line raw c = dispatch _compile_line (classify raw) raw c.
Proof.
  unfold _compile_line at 1. simpl. rewrite compile_line_body_dispatch.
  destruct (classify raw) eqn:Cl; try reflexivity.
  cbn [dispatch]. pose proof (classify_if_then_shorter _ _ _ Cl).
  unfold _compile_line.
  rewrite (compile_line_fuel_stable (length raw) (S (length stmt)) stmt _
             ltac:(lia) ltac:(lia)).
  reflexivity.
Qed.

(** The recursive call of an inline if-then is on a statement strictly
    shorter than the line ([classify_if_then_shorter]), so the recursion
    ends: [_compile_line] returns or raises on every line, and [compile] on
    every source. *)
Theorem compile_line_terminates :
  forall raw c source filename,
    _compile_line raw c <> OutOfFuel /\
    snd (compile c source filename) <> Stuck.
Proof.
  intros raw c source filename. split.
  - apply compile_line_fuel_enough.
  - apply compile_never_stuck.
Qed.

(** ** The output buffer is write-only *)

Lemma emit_prepend pre s c : _emit s (prepend pre c) = prepend pre (_emit s c).
Proof. unfold _emit, prepend. simpl. rewrite app_assoc. reflexivity. Qed.

Lemma open_block_prepend pre header kind c :
  open_block header kind (prepend pre c) = prepend pre (open_block header kind c).
Proof. unfold open_block, push, add_indent. rewrite emit_prepend. reflexivity. Qed.

Lemma close_prepend pre c :
  (pop (prepend pre c) >>= fun c => Done (add_indent (-1) c))
  = map_outcome (prepend pre) (pop c >>= fun c => Done (add_indent (-1) c)).
Proof. unfold pop. simpl. destruct (stack c); reflexivity. Qed.

Lemma compile_line_fuel_prepend pre fuel :
  forall raw c,
    compile_line_fuel fuel raw (prepend pre c)
      = map_outcome (prepend pre) (compile_line_fuel fuel raw c).
Proof.
  induction fuel as [|fuel IH]; intros raw c; [reflexivity|].
  simpl. rewrite !compile_line_body_dispatch.
  destruct (classify raw); cbn [dispatch map_outcome];
    try rewrite emit_prepend; try rewrite open_block_prepend;
    try reflexivity.
  - unfold is_empty_stack. simpl stack.
    destruct (stack c) eqn:S; [reflexivity|].
    rewrite close_prepend. reflexivity.
  - unfold _say_f. rewrite emit_prepend. reflexivity.
  - rewrite IH.
    destruct (compile_line_fuel fuel stmt _) as [c2|e c2|]; simpl;
      try reflexivity.
    apply close_prepend.
Qed.

Lemma compile_line_prepend pre raw c :
  _compile_line raw (prepend pre c)
    = map_outcome (prepend pre) (_compile_line raw c).
Proof. apply compile_line_fuel_prepend. Qed.

Lemma run_lines_prepend pre filename raws :
  forall idx c,
    run_lines filename idx raws (prepend pre c)
      = map_outcome (prepend pre) (run_lines filename idx raws c).
Proof.
  induction raws as [|raw more IH]; intros idx c; simpl; [reflexivity|].
  rewrite compile_line_prepend.
  destruct (_compile_line raw c) as [c1|e c1|]; simpl; try reflexivity.
  apply IH.
Qed.

(** Lines emitted earlier are never read and never changed: processing a
    line, or a run of lines, on an object that already holds output gives
    the same outcome as on the object without it, with that output in
    front. *)
Theorem compile_line_ignores_earlier_output :
  forall pre raw c,
    _compile_line raw (prepend pre c)
      = map_outcome (prepend pre) (_compile_line raw c) /\
    (forall filename idx raws,
       run_lines filename idx raws (prepend pre c)
         = map_outcome (prepend pre) (run_lines filename idx raws c)).
Proof.
  intros pre raw c. split; [apply compile_line_prepend|].
  intros. apply run_lines_prepend.
Qed.

(** ** When a line raises *)

Lemma compile_line_fuel_error_kinds fuel :
  forall raw c e c',
    compile_line_fuel fuel raw c = Raised e c' -> line_error e.
Proof.
  induction fuel as [|fuel IH]; intros raw c e c' H; [discriminate|].
  simpl in H. rewrite compile_line_body_dispatch in H.
  destruct (classify raw); cbn [dispatch] in H; try discriminate.
  - destruct (is_empty_stack c).
    + injection H as <- _. left. reflexivity.
    + destruct (pop_cases c) as [[_ E]|[_ E]]; rewrite E in H; simpl in H.
      * injection H as <- _. right. reflexivity.
      * discriminate.
  - destruct (compile_line_fuel fuel stmt _) as [c2|e2 c2|] eqn:R;
      simpl in H; try discriminate.
    + destruct (pop_cases c2) as [[_ E]|[_ E]]; rewrite E in H; simpl in H.
      * injection H as <- _. right. reflexivity.
      * discriminate.
    + injection H as <- _. eapply IH. exact R.
Qed.

Lemma compile_line_done_or_raised raw c :
  line_effect raw = Closes /\ stack c = [] /\
    (exists e c', _compile_line raw c = Raised e c') \/
  (line_effect raw <> Closes \/ stack c <> []) /\
    (exists c', _compile_line raw c = Done c').
Proof.
  pose proof (compile_line_effect raw c) as E.
  destruct (line_effect raw) eqn:L; simpl in E.
  - right. split; [left; discriminate|].
    destruct E as (c' & k & R & _). eauto.
  - destruct (stack c) eqn:S.
    + left. auto.
    + right. split; [right; discriminate|].
      destruct E as (c' & R & _). eauto.
  - right. split; [left; discriminate|].
    destruct E as (c' & R & _). eauto.
Qed.

(** A line raises only when it closes a block (an [end], or an inline
    if-then ending in one) while no block is open, and what it raises is one
    of two errors: the unexpected [end], or the pop from the empty stack of
    an inline if-then. *)
Theorem compile_line_raises_only_unmatched_close :
  forall raw c e c',
    _compile_line raw c = Raised e c' ->
    line_effect raw = Closes /\ stack c = [] /\ line_error e.
Proof.
  intros raw c e c' H.
  destruct (compile_line_done_or_raised raw c)
    as [(L & S & _)|(_ & (c1 & R))]; [|rewrite R in H; discriminate].
  repeat split; try assumption.
  eapply compile_line_fuel_error_kinds. exact H.
Qed.

Lemma compile_line_raises_only_unmatched_close_witness :
  _compile_line "if a then if b then end" (new_compiler "  ")
    = Raised (IndexError "pop from empty list")
        (mkCompiler "  " ["if a:"; "  if b:"] 0 []) /\
  line_effect "if a then if b then end" = Closes /\
  stack (new_compiler "  ") = [] /\
  line_error (IndexError "pop from empty list").
Proof.
  assert (H0 : _compile_line "if a then if b then end" (new_compiler "  ")
    = Raised (IndexError "pop from empty list")
        (mkCompiler "  " ["if a:"; "  if b:"] 0 []))
    by (vm_compute; reflexivity).
  split; [exact H0|].
  exact (compile_line_raises_only_unmatched_close _ _ _ _ H0).
Defined.

(** With a block open every line returns; and so does, whatever the stack,
    every line that does not close a block. *)
Theorem compile_line_returns_with_block_open :
  forall raw c,
    stack c <> [] \/ line_effect raw <> Closes ->
    exists c', _compile_line raw c = Done c'.
Proof.
  intros raw c H.
  destruct (compile_line_done_or_raised raw c)
    as [(L & S & _)|(_ & R)]; [|exact R].
  destruct H as [H|H]; contradiction.
Qed.

Lemma compile_line_returns_with_block_open_witness :
  (stack (mkCompiler "  " ["def f():"] 1 ["def"]) <> [] \/
   line_effect "if a then end" <> Closes) /\
  exists c', _compile_line "if a then end"
               (mkCompiler "  " ["def f():"] 1 ["def"]) = Done c'.
Proof.
  assert (H0 : stack (mkCompiler "  " ["def f():"] 1 ["def"]) <> [] \/
               line_effect "if a then end" <> Closes)
    by (left; discriminate).
  split; [exact H0|].
  exact (compile_line_returns_with_block_open _ _ H0).
Defined.

(** ** What [compile] returns and when *)

Lemma reset_invariant c : indent_matches_stack (reset c).
Proof. reflexivity. Qed.

Lemma compile_invariant_kept :
  forall c source filename,
    indent_matches_stack (fst (compile c source filename)) /\
    (0 <= indent (fst (compile c source filename)))%Z /\
    indent_unit (fst (compile c source filename)) = indent_unit c.
Proof.
  intros c source filename.
  assert (H : indent_matches_stack (fst (compile c source filename))).
  { unfold compile.
    pose proof (run_lines_kept filename (splitlines source) 1 (reset c)) as K.
    destruct (run_lines _ _ _ _) as [c'|e c'|]; simpl in K.
    - destruct K as [_ K]. destruct (stack c') eqn:S; simpl; apply K, reset_invariant.
    - destruct K as [_ K]. apply K, reset_invariant.
    - destruct K. }
  split; [exact H | split; [apply invariant_nonneg, H |]].
  apply compile_keeps_indent_unit.
Qed.

(** Whether [compile] returns or raises, the object it leaves behind has
    its indent level equal to the depth of its block stack (so not
    negative), and its indent unit untouched. *)
Theorem compile_leaves_invariant :
  forall c source filename,
    indent_matches_stack (fst (compile c source filename)) /\
    (0 <= indent (fst (compile c source filename)))%Z /\
    indent_unit (fst (compile c source filename)) = indent_unit c.
Proof. exact compile_invariant_kept. Qed.

Lemma run_lines_done_matched filename raws :
  forall idx c c',
    run_lines filename idx raws c = Done c' -> stack c' = [] ->
    matched_from (List.length (stack c)) (map line_effect raws) = true.
Proof.
  induction raws as [|raw more IH]; intros idx c c' R S'; simpl in R |- *.
  - injection R as <-. rewrite S'. reflexivity.
  - pose proof (compile_line_effect raw c) as E.
    destruct (line_effect raw); simpl in E.
    + destruct E as (c1 & kind & E1 & S1 & _). rewrite E1 in R.
      specialize (IH _ _ _ R S'). rewrite S1, length_app in IH.
      simpl in IH. rewrite Nat.add_1_r in IH. exact IH.
    + destruct (stack c) as [|k st] eqn:Sc.
      * destruct E as (e & c1 & E1). rewrite E1 in R. discriminate.
      * destruct E as (c1 & E1 & S1 & _). rewrite E1 in R.
        specialize (IH _ _ _ R S'). rewrite S1 in IH.
        assert (L : List.length (k :: st) = S (List.length (removelast (k :: st))))
          by (apply length_removelast; discriminate).
        simpl List.length at 1 in L. injection L as L.
        simpl List.length. rewrite L. exact IH.
    + destruct E as (c1 & E1 & S1 & _). rewrite E1 in R.
      specialize (IH _ _ _ R S'). rewrite S1 in IH. exact IH.
Qed.

Lemma compile_returned_facts :
  forall c source filename c' text,
    compile c source filename = (c', Returned text) ->
    matched_from 0 (map line_effect (splitlines source)) = true /\
    stack c' = [] /\ indent c' = 0%Z /\ text = join nl (lines c') ++ nl.
Proof.
  intros c source filename c' text H.
  pose proof (compile_invariant_kept c source filename) as (I & _ & _).
  rewrite H in I. simpl in I. unfold indent_matches_stack in I.
  unfold compile in H.
  destruct (run_lines _ _ _ _) as [c1|e c1|] eqn:R; try discriminate.
  destruct (stack c1) eqn:S1; [|discriminate].
  injection H as <- <-. rewrite S1 in I.
  split; [apply (run_lines_done_matched _ _ _ _ _ R S1)|].
  repeat split; assumption.
Qed.

(** When [compile] returns a text, the openers and closers of the input
    were matched like brackets (an inline if-then counting as what its
    statement is), the object is left with no block open and indent 0, and
    the text is the emitted lines joined by line feeds, with one more line
    feed at the end. *)
Theorem compile_returned_state :
  forall c source filename c' text,
    compile c source filename = (c', Returned text) ->
    matched_from 0 (map line_effect (splitlines source)) = true /\
    stack c' = [] /\ indent c' = 0%Z /\ text = join nl (lines c') ++ nl.
Proof. exact compile_returned_facts. Qed.

Lemma compile_returned_state_witness :
  compile (new_compiler "  ") (src ["if a then repeat 2 times"; "say a"; "end"]) None
    = (mkCompiler "  " ["if a:"; "  for _ in range(int(2)):"; "  print(a)"] 0 [],
       Returned (src ["if a:"; "  for _ in range(int(2)):"; "  print(a)"])) /\
  matched_from 0
    (map line_effect (splitlines (src ["if a then repeat 2 times"; "say a"; "end"])))
    = true /\
  stack (mkCompiler "  " ["if a:"; "  for _ in range(int(2)):"; "  print(a)"] 0 [])
    = [] /\
  indent (mkCompiler "  " ["if a:"; "  for _ in range(int(2)):"; "  print(a)"] 0 [])
    = 0%Z /\
  src ["if a:"; "  for _ in range(int(2)):"; "  print(a)"]
    = join nl
        (lines (mkCompiler "  " ["if a:"; "  for _ in range(int(2)):"; "  print(a)"]
                  0 [])) ++ nl.
Proof.
  assert (H0 : compile (new_compiler "  ")
                 (src ["if a then repeat 2 times"; "say a"; "end"]) None
    = (mkCompiler "  " ["if a:"; "  for _ in range(int(2)):"; "  print(a)"] 0 [],
       Returned (src ["if a:"; "  for _ in range(int(2)):"; "  print(a)"])))
    by (vm_compute; reflexivity).
  split; [exact H0|].
  exact (compile_returned_state _ _ _ _ _ H0).
Defined.

(** Conversely, whenever the openers and closers of the input are matched
    (an inline if-then counting as what its statement is), [compile]
    returns. *)
Theorem compile_matched_returns :
  forall c source filename,
    matched_from 0 (map line_effect (splitlines source)) = true ->
    exists c', compile c source filename
                 = (c', Returned (join nl (lines c') ++ nl)).
Proof.
  intros c source filename H.
  destruct (run_lines_matched filename (splitlines source) 1 (reset c) H)
    as (c' & R & S' & _).
  exists c'. unfold compile. rewrite R, S'. reflexivity.
Qed.

Lemma compile_matched_returns_witness :
  matched_from 0
    (map line_effect (splitlines (src ["def f"; "if a then end"]))) = true /\
  exists c', compile (new_compiler "  ") (src ["def f"; "if a then end"]) None
               = (c', Returned (join nl (lines c') ++ nl)).
Proof.
  assert (H0 : matched_from 0
    (map line_effect (splitlines (src ["def f"; "if a then end"]))) = true)
    by (vm_compute; reflexivity).
  split; [exact H0|].
  exact (compile_matched_returns (new_compiler "  ") _ None H0).
Defined.

Lemma run_lines_raised filename raws :
  forall idx c e c',
    run_lines filename idx raws c = Raised e c' ->
    exists pre raw post c1 e0,
      raws = (pre ++ raw :: post)%list /\
      run_lines filename idx pre c = Done c1 /\
      _compile_line raw c1 = Raised e0 c' /\
      e = decorate e0 (label filename ++ ":" ++ str_of_nat (idx + List.length pre)).
Proof.
  induction raws as [|raw more IH]; intros idx c e c' H; simpl in H;
    [discriminate|].
  destruct (_compile_line raw c) as [c1|e1 c1|] eqn:R; try discriminate.
  - destruct (IH _ _ _ _ H) as (pre & r & post & c2 & e0 & -> & Hpre & Hr & ->).
    exists (raw :: pre), r, post, c2, e0.
    cbn [app run_lines List.length]. rewrite R, Nat.add_succ_r.
    repeat split; assumption.
  - injection H as <- <-. exists [], raw, more, c, e1. simpl.
    rewrite Nat.add_0_r. repeat split. exact R.
Qed.

(** Every failure of [compile] is one of two: the missing-end error after
    the last line, or the error of the first line that closes a block while
    none is open, with the label and the 1-based number of that line added
    to its message; the lines before it were processed, those after it were
    not. *)
Theorem compile_failure_cases :
  forall c source filename c' e,
    compile c source filename = (c', Failed e) ->
    (stack c' <> [] /\
     run_lines filename 1 (splitlines source) (reset c) = Done c' /\
     e = SyntaxError ("Missing 'end' for: " ++ join " > " (stack c'))) \/
    (exists pre raw post c1 e0,
       splitlines source = (pre ++ raw :: post)%list /\
       run_lines filename 1 pre (reset c) = Done c1 /\
       stack c1 = [] /\ line_effect raw = Closes /\
       _compile_line raw c1 = Raised e0 c' /\ line_error e0 /\
       e = decorate e0 (label filename ++ ":" ++ str_of_nat (S (List.length pre)))).
Proof.
  intros c source filename c' e H. unfold compile in H.
  destruct (run_lines _ _ _ _) as [c1|e1 c1|] eqn:R; try discriminate.
  - destruct (stack c1) eqn:S1; [discriminate|].
    injection H as <- <-. left. rewrite S1.
    repeat split; discriminate || reflexivity.
  - injection H as <- <-. right.
    destruct (run_lines_raised _ _ _ _ _ _ R)
      as (pre & raw & post & c2 & e0 & Hs & Hpre & Hr & He).
    destruct (compile_line_done_or_raised raw c2)
      as [(L & S2 & _)|(_ & (c3 & D))]; [|rewrite D in Hr; discriminate].
    exists pre, raw, post, c2, e0. repeat split; try assumption.
    eapply compile_line_fuel_error_kinds. exact Hr.
Qed.

Lemma compile_failure_cases_witness :
  compile (new_compiler "  ") (src ["say a"; "if a then end"; "say b"])
    (Some "p.monthy")
    = (mkCompiler "  " ["print(a)"; "if a:"] 0 [],
       Failed (IndexError "pop from empty list (at p.monthy:2)")) /\
  ((stack (mkCompiler "  " ["print(a)"; "if a:"] 0 []) <> [] /\
    run_lines (Some "p.monthy") 1
      (splitlines (src ["say a"; "if a then end"; "say b"]))
      (reset (new_compiler "  "))
      = Done (mkCompiler "  " ["print(a)"; "if a:"] 0 []) /\
    IndexError "pop from empty list (at p.monthy:2)"
      = SyntaxError ("Missing 'end' for: "
                     ++ join " > " (stack (mkCompiler "  " ["print(a)"; "if a:"] 0 [])))) \/
   (exists pre raw post c1 e0,
      splitlines (src ["say a"; "if a then end"; "say b"])
        = (pre ++ raw :: post)%list /\
      run_lines (Some "p.monthy") 1 pre (reset (new_compiler "  ")) = Done c1 /\
      stack c1 = [] /\ line_effect raw = Closes /\
      _compile_line raw c1 = Raised e0 (mkCompiler "  " ["print(a)"; "if a:"] 0 []) /\
      line_error e0 /\
      IndexError "pop from empty list (at p.monthy:2)"
        = decorate e0 (label (Some "p.monthy") ++ ":"
                       ++ str_of_nat (S (List.length pre))))).
Proof.
  assert (H0 : compile (new_compiler "  ")
                 (src ["say a"; "if a then end"; "say b"]) (Some "p.monthy")
    = (mkCompiler "  " ["print(a)"; "if a:"] 0 [],
       Failed (IndexError "pop from empty list (at p.monthy:2)")))
    by (vm_compute; reflexivity).
  split; [exact H0|].
  exact (compile_failure_cases _ _ _ _ _ H0).
Defined.

(** ** Blank lines and comment lines *)

Lemma lstrip_all_space raw : all_chars isspace raw = true -> lstrip raw = "".
Proof.
  induction raw as [|c t IH]; simpl; [reflexivity|].
  intros H. apply andb_prop in H. destruct H as [-> H]. apply IH, H.
Qed.

Lemma rstrip_keeps_head c t :
  isspace c = false -> exists r, rstrip (String c t) = String c r.
Proof.
  intros H. simpl. destruct (rstrip t); [rewrite H|]; eauto.
Qed.

Lemma strip_comment_hash_first r : _strip_comment (String "#" r) = "".
Proof.
  unfold _strip_comment. cbn [strip_comment_from].
  unfold contains, partition. rewrite find_split_unfold.
  replace (prefix "#" (String "#" r)) with true
    by (cbn [prefix]; destruct (ascii_dec "#" "#");
        [destruct r; reflexivity | congruence]).
  reflexivity.
Qed.

Lemma classify_blank_line raw : blank_line raw = true -> classify raw = Blank.
Proof.
  unfold blank_line, classify, strip. intros H.
  apply orb_prop in H. destruct H as [H|H].
  - rewrite (lstrip_all_space _ H). reflexivity.
  - destruct (lstrip raw) as [|ch t]; cbn [prefix] in H; [discriminate|].
    destruct (ascii_dec "#" ch) as [<-|]; [|discriminate].
    destruct (rstrip_keeps_head "#" t eq_refl) as [r ->].
    rewrite strip_comment_hash_first. reflexivity.
Qed.

Lemma compile_line_blank raw c : blank_line raw = true -> _compile_line raw c = Done c.
Proof.
  intros H. rewrite compile_line_unfold, (classify_blank_line _ H). reflexivity.
Qed.

(** A source made of blank lines and ["#"] comment lines only (the empty
    source among them) compiles to a single line feed, and the object is
    left as after a reset. *)
Theorem compile_blank_source :
  forall c source filename,
    forallb blank_line (splitlines source) = true ->
    compile c source filename = (reset c, Returned nl).
Proof.
  intros c source filename H. unfold compile.
  assert (R : forall raws idx c0,
             forallb blank_line raws = true ->
             run_lines filename idx raws c0 = Done c0).
  { induction raws as [|raw more IH]; intros idx c0 Hb; [reflexivity|].
    simpl in Hb. apply andb_prop in Hb. destruct Hb as [H1 H2].
    simpl. rewrite (compile_line_blank _ _ H1). apply IH, H2. }
  rewrite (R _ _ _ H). reflexivity.
Qed.

Lemma compile_blank_source_witness :
  forallb blank_line (splitlines (src [""; "   # note: 'x"; "#"; "  "])) = true /\
  compile (mkCompiler "  " ["old"] 3 ["if"])
    (src [""; "   # note: 'x"; "#"; "  "]) None
    = (reset (mkCompiler "  " ["old"] 3 ["if"]), Returned nl).
Proof.
  assert (H0 : forallb blank_line
                 (splitlines (src [""; "   # note: 'x"; "#"; "  "])) = true)
    by (vm_compute; reflexivity).
  split; [exact H0|].
  exact (compile_blank_source _ _ None H0).
Defined.

(** ** The inline if-then and its block form *)

Lemma inline_if_block_lines raw cond stmt header closer c c' filename idx :
  classify raw = IfThen cond stmt ->
  classify header = IfBlockOpen cond ->
  classify closer = EndMarker ->
  _compile_line raw c = Done c' ->
  run_lines filename idx [header; stmt; closer] c = Done c'.
Proof.
  intros Cr Ch Cc H.
  rewrite compile_line_unfold, Cr in H. cbn [dispatch] in H.
  cbn [run_lines].
  rewrite (compile_line_unfold header), Ch. cbn [dispatch].
  destruct (_compile_line stmt _) as [c2|e c2|]; simpl in H; try discriminate.
  rewrite (compile_line_unfold closer), Cc. cbn [dispatch].
  destruct (pop_cases c2) as [[S E]|[S E]]; rewrite E in H; simpl in H;
    [discriminate|].
  unfold is_empty_stack. destruct (stack c2) eqn:S2; [congruence|].
  rewrite E. simpl. exact H.
Qed.

(** Whenever an inline if-then returns, the three lines [if <cond>],
    [<stmt>], [end] in its place take the object to the same state, output
    included, provided the line [if <cond>] is itself read as a block if with
    that condition (it is not when the condition ends with a colon, see
    [inline_if_colon_condition]). *)
Theorem inline_if_as_block :
  forall raw cond stmt c c' filename idx,
    classify raw = IfThen cond stmt ->
    classify ("if " ++ cond) = IfBlockOpen cond ->
    _compile_line raw c = Done c' ->
    run_lines filename idx ["if " ++ cond; stmt; "end"] c = Done c'.
Proof.
  intros raw cond stmt c c' filename idx Cr Ch H.
  apply (inline_if_block_lines raw cond stmt); try assumption.
  vm_compute. reflexivity.
Qed.

Lemma inline_if_as_block_witness :
  classify "if a is at least 5 then say: big {a}"
    = IfThen "a is at least 5" "say: big {a}" /\
  classify ("if " ++ "a is at least 5") = IfBlockOpen "a is at least 5" /\
  _compile_line "if a is at least 5 then say: big {a}" (new_compiler "  ")
    = Done (mkCompiler "  " ["if a >= 5:"; "  print(f" ++ str1 DQ ++ "big {a}"
                                            ++ str1 DQ ++ ")"] 0 []) /\
  run_lines None 7 ["if " ++ "a is at least 5"; "say: big {a}"; "end"]
    (new_compiler "  ")
    = Done (mkCompiler "  " ["if a >= 5:"; "  print(f" ++ str1 DQ ++ "big {a}"
                                            ++ str1 DQ ++ ")"] 0 []).
Proof.
  assert (H0 : classify "if a is at least 5 then say: big {a}"
    = IfThen "a is at least 5" "say: big {a}") by (vm_compute; reflexivity).
  assert (H1 : classify ("if " ++ "a is at least 5") = IfBlockOpen "a is at least 5")
    by (vm_compute; reflexivity).
  assert (H3 : _compile_line "if a is at least 5 then say: big {a}"
                 (new_compiler "  ")
    = Done (mkCompiler "  " ["if a >= 5:"; "  print(f" ++ str1 DQ ++ "big {a}"
                                            ++ str1 DQ ++ ")"] 0 []))
    by (vm_compute; reflexivity).
  split; [exact H0 | split; [exact H1 | split; [exact H3 |]]].
  exact (inline_if_as_block _ _ _ _ _ None 7 H0 H1 H3).
Defined.

(** The proviso is needed: with a colon at the end of the condition the
    inline form keeps it and the block form drops it. *)
Example inline_if_colon_condition :
  classify "if a: then say a" = IfThen "a:" "say a" /\
  classify ("if " ++ "a:") = IfBlockOpen "a" /\
  _compile_line "if a: then say a" (new_compiler "  ")
    = Done (mkCompiler "  " ["if a::"; "  print(a)"] 0 []) /\
  run_lines None 1 ["if " ++ "a:"; "say a"; "end"] (new_compiler "  ")
    = Done (mkCompiler "  " ["if a:"; "  print(a)"] 0 []).
Proof. vm_compute. repeat split. Qed.

(** ** Sources put one after the other *)

Lemma run_lines_done_any_index filename raws :
  forall idx c c',
    run_lines filename idx raws c = Done c' ->
    forall filename' idx', run_lines filename' idx' raws c = Done c'.
Proof.
  induction raws as [|raw more IH]; intros idx c c' H filename' idx';
    simpl in H |- *; [exact H|].
  destruct (_compile_line raw c) as [c1|e c1|]; try discriminate.
  eapply IH. exact H.
Qed.

Lemma compile_returned_run c source filename c' text :
  compile c source filename = (c', Returned text) ->
  run_lines filename 1 (splitlines source) (reset c) = Done c' /\
  c' = prepend (lines c') (reset c).
Proof.
  intros H.
  pose proof (compile_invariant_kept c source filename) as (I & _ & U).
  rewrite H in I, U. simpl in I, U. unfold indent_matches_stack in I.
  unfold compile in H.
  destruct (run_lines _ _ _ _) as [c1|e c1|] eqn:R; try discriminate.
  destruct (stack c1) eqn:S1; [|discriminate].
  injection H as <- _. split; [reflexivity|].
  rewrite S1 in I. destruct c1 as [u l i st]. simpl in *. subst.
  unfold prepend, reset. simpl. rewrite app_nil_r. reflexivity.
Qed.

(** When two sources each compile to a text, a source whose lines are
    those of the first followed by those of the second compiles too, and
    emits the lines of the first followed by the lines of the second. *)
Theorem compile_concatenation :
  forall c sourceA fileA cA textA sourceB fileB cB textB source filename,
    compile c sourceA fileA = (cA, Returned textA) ->
    compile c sourceB fileB = (cB, Returned textB) ->
    splitlines source = (splitlines sourceA ++ splitlines sourceB)%list ->
    exists c', compile c source filename
                 = (c', Returned (join nl (lines c') ++ nl)) /\
               lines c' = (lines cA ++ lines cB)%list.
Proof.
  intros c sA fA cA tA sB fB cB tB s f HA HB Hs.
  destruct (compile_returned_run _ _ _ _ _ HA) as [RA EA].
  destruct (compile_returned_run _ _ _ _ _ HB) as [RB EB].
  pose proof (compile_returned_facts _ _ _ _ _ HB) as (_ & SB & _ & _).
  exists (prepend (lines cA) cB). unfold compile.
  rewrite Hs, (run_lines_app _ _ _ _ _ _ (run_lines_done_any_index _ _ _ _ _ RA f 1)).
  rewrite EA at 1. rewrite run_lines_prepend.
  rewrite (run_lines_done_any_index _ _ _ _ _ RB f _). simpl.
  rewrite SB. split; reflexivity.
Qed.

Lemma compile_concatenation_witness :
  compile (new_compiler "  ") (src ["def f x"; "return x"; "end"]) None
    = (mkCompiler "  " ["def f(x):"; "  return x"] 0 [],
       Returned (src ["def f(x):"; "  return x"])) /\
  compile (new_compiler "  ") (src ["y is 1"; "say y"]) (Some "b")
    = (mkCompiler "  " ["y = 1"; "print(y)"] 0 [],
       Returned (src ["y = 1"; "print(y)"])) /\
  splitlines (src ["def f x"; "return x"; "end"; "y is 1"; "say y"])
    = (splitlines (src ["def f x"; "return x"; "end"])
       ++ splitlines (src ["y is 1"; "say y"]))%list /\
  exists c', compile (new_compiler "  ")
               (src ["def f x"; "return x"; "end"; "y is 1"; "say y"]) None
               = (c', Returned (join nl (lines c') ++ nl)) /\
             lines c' = (["def f(x):"; "  return x"] ++ ["y = 1"; "print(y)"])%list.
Proof.
  assert (HA : compile (new_compiler "  ") (src ["def f x"; "return x"; "end"]) None
    = (mkCompiler "  " ["def f(x):"; "  return x"] 0 [],
       Returned (src ["def f(x):"; "  return x"]))) by (vm_compute; reflexivity).
  assert (HB : compile (new_compiler "  ") (src ["y is 1"; "say y"]) (Some "b")
    = (mkCompiler "  " ["y = 1"; "print(y)"] 0 [],
       Returned (src ["y = 1"; "print(y)"]))) by (vm_compute; reflexivity).
  assert (Hs : splitlines (src ["def f x"; "return x"; "end"; "y is 1"; "say y"])
    = (splitlines (src ["def f x"; "return x"; "end"])
       ++ splitlines (src ["y is 1"; "say y"]))%list) by (vm_compute; reflexivity).
  split; [exact HA | split; [exact HB | split; [exact Hs |]]].
  exact (compile_concatenation _ _ _ _ _ _ _ _ _ _ None HA HB Hs).
Defined.

(** ** Escaping of the interpolated text *)

Lemma escape_each_reads_back s :
  unescape (escape_each s) false = s /\
  literal_body_whole (escape_each s) false = true.
Proof.
  induction s as [|c t [IH1 IH2]]; [split; reflexivity|].
  cbn [escape_each]. unfold escape_char.
  destruct (Ascii.eqb c BSL) eqn:E1.
  - apply Ascii.eqb_eq in E1. subst c. simpl. rewrite IH1, IH2. split; reflexivity.
  - destruct (Ascii.eqb c DQ) eqn:E2.
    + apply Ascii.eqb_eq in E2. subst c. simpl. rewrite IH1, IH2. split; reflexivity.
    + unfold str1. cbn [append unescape literal_body_whole].
      rewrite E1, E2, IH1, IH2. split; reflexivity.
Qed.

(** The escaping of [_say_f] can be read back: taking each backslash with
    the character after it gives the rewritten text again, no double quote
    is left on its own to end the literal early, and no backslash is left
    dangling at its end. *)
Theorem escape_reads_back :
  forall inner,
    unescape (escape inner) false = inner /\
    literal_body_whole (escape inner) false = true.
Proof.
  intros inner. rewrite escape_escape_each. apply escape_each_reads_back.
Qed.

(** ** The expression rewriter on text without letters *)

Lemma all_chars_app p a b :
  all_chars p (a ++ b) = all_chars p a && all_chars p b.
Proof.
  induction a as [|c t IH]; [reflexivity|].
  simpl. rewrite IH. apply andb_assoc.
Qed.

Lemma prefix_all_chars p old s :
  prefix old s = true -> all_chars p s = true -> all_chars p old = true.
Proof.
  revert s; induction old as [|a old IH]; intros [|b s] H Hs;
    cbn [prefix] in H; try reflexivity; try discriminate.
  destruct (ascii_dec a b) as [<-|]; [|discriminate].
  simpl in Hs |- *. apply andb_prop in Hs. destruct Hs as [-> Hs].
  apply (IH _ H Hs).
Qed.

Lemma replace_go_no_occurrence p old new s :
  all_chars p old = false -> all_chars p s = true ->
  replace_go old new s 0 = s.
Proof.
  intros Hold. induction s as [|c t IH]; intros Hs; [reflexivity|].
  cbn [replace_go].
  destruct (prefix old (String c t)) eqn:P.
  - rewrite (prefix_all_chars p _ _ P Hs) in Hold. discriminate.
  - simpl in Hs. apply andb_prop in Hs. rewrite (IH (proj2 Hs)). reflexivity.
Qed.

Lemma replace_no_occurrence p old new s :
  all_chars p old = false -> all_chars p s = true -> replace s old new = s.
Proof.
  intros Hold Hs. unfold replace. destruct old; [discriminate|].
  apply (replace_go_no_occurrence p); assumption.
Qed.

Lemma lower_not_letter x : not_letter x = true -> lower x = x.
Proof.
  unfold not_letter, is_letter, lower. intros H.
  apply negb_true_iff, orb_false_iff in H. destruct H as [-> _]. reflexivity.
Qed.

Lemma lower_letter_is_lower p : is_letter p = true -> is_lower (lower p) = true.
Proof.
  destruct p as [[] [] [] [] [] [] [] []]; vm_compute; congruence.
Qed.

Lemma literal_letter_rejects p x :
  is_letter p = true -> not_letter x = true -> accepts (CLit p) x = false.
Proof.
  intros Hp Hx. simpl. rewrite (lower_not_letter _ Hx).
  destruct (Ascii.eqb x (lower p)) eqn:E; [|reflexivity].
  apply Ascii.eqb_eq in E. subst x.
  unfold not_letter, is_letter in Hx.
  rewrite (lower_letter_is_lower _ Hp), orb_true_r in Hx. discriminate.
Qed.

Lemma word_no_match p rest K prev s g :
  is_letter p = true -> all_chars not_letter s = true ->
  rmatch (word (String p rest)) K prev s g = None.
Proof.
  intros Hp Hs. unfold word.
  assert (H : forall K', rmatch (lit (String p rest)) K' prev s g = None).
  { intros K'. destruct s as [|x t].
    - destruct rest; reflexivity.
    - simpl in Hs. apply andb_prop in Hs. destruct Hs as [Hx _].
      pose proof (literal_letter_rejects _ _ Hp Hx) as A.
      destruct rest; cbn [lit rmatch]; rewrite A; reflexivity. }
  cbn [seq rmatch]. destruct (xorb _ _); [apply H | reflexivity].
Qed.

Lemma sub_go_no_match r repl s :
  (forall prev s', all_chars not_letter s' = true ->
                   rmatch r accept_any prev s' [] = None) ->
  all_chars not_letter s = true ->
  forall prev, sub_go r repl prev s 0 = s.
Proof.
  intros Hr. induction s as [|c t IH]; intros Hs prev; cbn [sub_go].
  - rewrite (Hr _ _ Hs). reflexivity.
  - rewrite (Hr _ _ Hs). simpl in Hs. apply andb_prop in Hs.
    rewrite (IH (proj2 Hs)). reflexivity.
Qed.

Lemma re_sub_word_no_letters p rest repl s :
  is_letter p = true -> all_chars not_letter s = true ->
  re_sub (word (String p rest)) repl s = s.
Proof.
  intros Hp Hs. unfold re_sub. apply sub_go_no_match; [|exact Hs].
  intros prev s' Hs'. apply word_no_match; assumption.
Qed.

Lemma rstrip_app_space x : rstrip (x ++ " ") = rstrip x.
Proof.
  induction x as [|c t IH]; [reflexivity|].
  cbn [append rstrip]. rewrite IH. reflexivity.
Qed.

Lemma strip_app_space e : strip (e ++ " ") = strip e.
Proof.
  unfold strip. induction e as [|c t IH]; [reflexivity|].
  cbn [append lstrip]. destruct (isspace c); [exact IH|].
  apply (rstrip_app_space (String c t)).
Qed.

Lemma strip_padded e : strip (" " ++ e ++ " ") = strip e.
Proof.
  change (strip (" " ++ e ++ " ")) with (strip (e ++ " ")).
  apply strip_app_space.
Qed.

(** An expression without letters (numbers, operators, brackets, quotes)
    passes through the rewriter unchanged, apart from the white space at
    its two ends. *)
Theorem tx_expr_without_letters :
  forall expr,
    all_chars not_letter expr = true -> _tx_expr expr = strip expr.
Proof.
  intros expr H. unfold _tx_expr.
  assert (Hp : all_chars not_letter (" " ++ expr ++ " ") = true).
  { rewrite !all_chars_app, H. reflexivity. }
  unfold replace_all, WORD_OPS, LITERALS, sub_all, COMPARATORS.
  cbn [fold_left fst snd].
  repeat match goal with
    | |- context [replace (" " ++ expr ++ " ") ?o ?n] =>
        rewrite (replace_no_occurrence not_letter o n _ eq_refl Hp)
    | |- context [re_sub (word (String ?p ?r)) ?repl (" " ++ expr ++ " ")] =>
        rewrite (re_sub_word_no_letters p r repl _ eq_refl Hp)
    end.
  apply strip_padded.
Qed.

Lemma tx_expr_without_letters_witness :
  all_chars not_letter " (1 + 2) * 3 >= -4.5 " = true /\
  _tx_expr " (1 + 2) * 3 >= -4.5 " = strip " (1 + 2) * 3 >= -4.5 ".
Proof.
  assert (H0 : all_chars not_letter " (1 + 2) * 3 >= -4.5 " = true)
    by (vm_compute; reflexivity).
  split; [exact H0|].
  exact (tx_expr_without_letters _ H0).
Defined.

(** ** White space around the rewritten expression *)

Lemma rstrip_idempotent s : rstrip (rstrip s) = rstrip s.
Proof.
  induction s as [|c t IH]; [reflexivity|].
  cbn [rstrip]. destruct (rstrip t) as [|d r] eqn:E.
  - destruct (isspace c) eqn:Sc; [reflexivity|].
    cbn [rstrip]. rewrite Sc. reflexivity.
  - cbn [rstrip]. cbn [rstrip] in IH. rewrite IH. reflexivity.
Qed.

Lemma lstrip_rstrip_lstrip s : lstrip (rstrip (lstrip s)) = rstrip (lstrip s).
Proof.
  induction s as [|c t IH]; [reflexivity|].
  cbn [lstrip]. destruct (isspace c) eqn:Sc; [exact IH|].
  destruct (rstrip_keeps_head c t Sc) as [r ->].
  cbn [lstrip]. rewrite Sc. reflexivity.
Qed.

Lemma strip_idempotent s : strip (strip s) = strip s.
Proof.
  unfold strip. rewrite lstrip_rstrip_lstrip. apply rstrip_idempotent.
Qed.

(** ** The end marker *)

Lemma fullmatch_end_any_case line :
  re_fullmatch RE_END line = String.eqb (str_lower line) "end".
Proof.
  unfold re_fullmatch, RE_END.
  destruct line as [|x [|y [|z [|w t]]]];
    cbn [lit rmatch accepts accept_end str_lower String.eqb];
    change (lower "e") with "e"%char;
    change (lower "n") with "n"%char;
    change (lower "d") with "d"%char;
    repeat match goal with
      | |- context [Ascii.eqb ?a ?b] => destruct (Ascii.eqb a b)
      end; reflexivity.
Qed.

(** A line is taken as the end of a block exactly when, trimmed and with
    its comment removed, it is the word [end] in any mix of upper and lower
    case. *)
Theorem end_marker_any_case :
  forall raw,
    String.eqb (str_lower (_strip_comment (strip raw))) "end"
      = match classify raw with EndMarker => true | _ => false end.
Proof.
  intros raw. rewrite <- fullmatch_end_any_case. unfold classify.
  destruct (strip raw) eqn:S0; [reflexivity|]. cbn [is_empty]. rewrite <- S0.
  destruct (_strip_comment (strip raw)) eqn:S1; [reflexivity|].
  cbn [is_empty]. rewrite <- S1.
  destruct (re_fullmatch RE_END _); [reflexivity|].
  repeat (destruct (re_match _ _); [reflexivity|]). reflexivity.
Qed.

(** ** The last entry of the comparator table *)

Lemma lower_e_word x : Ascii.eqb (lower x) "e" = true -> is_word x = true.
Proof. destruct x as [[] [] [] [] [] [] [] []]; vm_compute; congruence. Qed.

Lemma lower_s_word x : Ascii.eqb (lower x) "s" = true -> is_word x = true.
Proof. destruct x as [[] [] [] [] [] [] [] []]; vm_compute; congruence. Qed.

Lemma rmatch_equals prev s :
  rmatch (word "equals") accept_any prev s []
    = if equals_here prev s then Some (drop 6 s, []) else None.
Proof.
  unfold equals_here, is_equals, word.
  destruct s as [|c1 [|c2 [|c3 [|c4 [|c5 [|c6 s']]]]]];
    cbn [seq lit rmatch accepts word_after take drop str_lower String.eqb
         accept_any word_before];
    change (lower "e") with "e"%char; change (lower "q") with "q"%char;
    change (lower "u") with "u"%char; change (lower "a") with "a"%char;
    change (lower "l") with "l"%char; change (lower "s") with "s"%char;
    try (destruct (xorb _ _); rewrite ?andb_false_r;
         repeat match goal with
           | |- context [Ascii.eqb ?a ?b] => destruct (Ascii.eqb a b)
           end; rewrite ?andb_false_r; reflexivity).
  destruct (Ascii.eqb (lower c1) "e") eqn:E1;
    [|destruct (xorb _ _); rewrite ?andb_false_r; reflexivity].
  rewrite (lower_e_word _ E1), xorb_true_r.
  destruct (word_before prev); [reflexivity|]. cbn [negb andb].
  destruct (Ascii.eqb (lower c2) "q"); [|reflexivity].
  destruct (Ascii.eqb (lower c3) "u"); [|reflexivity].
  destruct (Ascii.eqb (lower c4) "a"); [|reflexivity].
  destruct (Ascii.eqb (lower c5) "l"); [|reflexivity].
  destruct (Ascii.eqb (lower c6) "s") eqn:E6; [|reflexivity].
  rewrite (lower_s_word _ E6). cbn [xorb].
  destruct (match s' with String c _ => is_word c | EmptyString => false end);
    reflexivity.
Qed.

Lemma lower_letter_is_letter x l :
  Ascii.eqb (lower x) l = true -> is_lower l = true -> is_letter x = true.
Proof.
  intros E L. apply Ascii.eqb_eq in E. subst l. revert L.
  destruct x as [[] [] [] [] [] [] [] []]; vm_compute; congruence.
Qed.

Lemma letter_is_word x : is_letter x = true -> is_word x = true.
Proof. destruct x as [[] [] [] [] [] [] [] []]; vm_compute; congruence. Qed.

Lemma is_equals_shape s :
  is_equals s = true ->
  exists c1 c2 c3 c4 c5 c6 s',
    s = String c1 (String c2 (String c3 (String c4 (String c5 (String c6 s'))))) /\
    all_chars is_letter (take 6 s) = true /\
    is_word c1 = true /\ is_word c6 = true.
Proof.
  unfold is_equals.
  destruct s as [|c1 [|c2 [|c3 [|c4 [|c5 [|c6 s']]]]]];
    cbn [take str_lower String.eqb]; intros H;
    repeat match type of H with
      | (if ?b then _ else _) = true => destruct b eqn:?; [|discriminate]
      end; try discriminate.
  exists c1, c2, c3, c4, c5, c6, s'. split; [reflexivity|].
  assert (L1 : is_letter c1 = true) by (eapply lower_letter_is_letter; eauto).
  assert (L2 : is_letter c2 = true) by (eapply lower_letter_is_letter; eauto).
  assert (L3 : is_letter c3 = true) by (eapply lower_letter_is_letter; eauto).
  assert (L4 : is_letter c4 = true) by (eapply lower_letter_is_letter; eauto).
  assert (L5 : is_letter c5 = true) by (eapply lower_letter_is_letter; eauto).
  assert (L6 : is_letter c6 = true) by (eapply lower_letter_is_letter; eauto).
  cbn [all_chars take]. rewrite L1, L2, L3, L4, L5, L6.
  split; [reflexivity|]. split; apply letter_is_word; assumption.
Qed.

Lemma equals_here_empty prev : equals_here prev "" = false.
Proof. unfold equals_here. destruct (word_before prev); reflexivity. Qed.

Lemma out_empty prev : sub_go (word "equals") "==" prev "" 0 = "".
Proof. cbn [sub_go]. rewrite rmatch_equals, equals_here_empty. reflexivity. Qed.

Lemma out_no_match prev c t :
  equals_here prev (String c t) = false ->
  sub_go (word "equals") "==" prev (String c t) 0
    = String c (sub_go (word "equals") "==" (Some c) t 0).
Proof. intros H. cbn [sub_go]. rewrite rmatch_equals, H. reflexivity. Qed.

Lemma length_drop_6 c1 c2 c3 c4 c5 c6 s' :
  length (String c1 (String c2 (String c3 (String c4 (String c5 (String c6 s'))))))
  - length s' = 6.
Proof. cbn [length]. lia. Qed.

Lemma out_match prev s :
  equals_here prev s = true ->
  exists c1 c2 c3 c4 c5 c6 s',
    s = String c1 (String c2 (String c3 (String c4 (String c5 (String c6 s'))))) /\
    is_word c6 = true /\ word_after s' = false /\
    sub_go (word "equals") "==" prev s 0
      = "==" ++ sub_go (word "equals") "==" (Some c6) s' 0.
Proof.
  intros H. pose proof H as H'. unfold equals_here in H'.
  apply andb_prop in H'. destruct H' as [H' Ha].
  apply andb_prop in H'. destruct H' as [_ He].
  destruct (is_equals_shape _ He) as (c1 & c2 & c3 & c4 & c5 & c6 & s' & -> & _ & _ & W6).
  exists c1, c2, c3, c4, c5, c6, s'. split; [reflexivity|]. split; [exact W6|].
  cbn [drop] in Ha. apply negb_true_iff in Ha. split; [exact Ha|].
  cbn [sub_go]. rewrite rmatch_equals, H. cbn [drop].
  rewrite length_drop_6. reflexivity.
Qed.

Lemma out_after_word p s :
  word_before p = true ->
  word_after (sub_go (word "equals") "==" p s 0) = word_after s.
Proof.
  intros H. destruct s as [|y t]; [rewrite out_empty; reflexivity|].
  rewrite out_no_match; [reflexivity|].
  unfold equals_here. rewrite H. reflexivity.
Qed.

Lemma out_letters k :
  forall s prev,
    all_chars is_letter (take k (sub_go (word "equals") "==" prev s 0)) = true ->
    length (take k (sub_go (word "equals") "==" prev s 0)) = k ->
    take k s = take k (sub_go (word "equals") "==" prev s 0) /\
    drop k (sub_go (word "equals") "==" prev s 0)
      = sub_go (word "equals") "==" (prev_after prev s k) (drop k s) 0.
Proof.
  induction k as [|k IH]; intros s prev Hl Hn.
  - split; reflexivity.
  - destruct s as [|c t]; [rewrite out_empty in Hn; discriminate|].
    destruct (equals_here prev (String c t)) eqn:E.
    + destruct (out_match _ _ E) as (c1 & c2 & c3 & c4 & c5 & c6 & s' & _ & _ & _ & R).
      rewrite R in Hl. discriminate.
    + rewrite (out_no_match _ _ _ E) in Hl, Hn |- *.
      cbn [take all_chars length] in Hl, Hn.
      apply andb_prop in Hl. destruct Hl as [_ Hl]. injection Hn as Hn.
      destruct (IH t (Some c) Hl Hn) as [T D].
      cbn [take drop prev_after]. rewrite T, D. split; reflexivity.
Qed.

Lemma length_take_6 c1 c2 c3 c4 c5 c6 s' :
  length (take 6 (String c1 (String c2 (String c3 (String c4 (String c5 (String c6 s')))))))
  = 6.
Proof. reflexivity. Qed.

(** After the ["equals"] entry has been applied, its pattern matches
    nowhere in the result. *)
Lemma equals_free_out n :
  forall s prev prev_o,
    length s <= n ->
    word_before prev_o = word_before prev \/ word_after s = false ->
    match_free (word "equals") prev_o (sub_go (word "equals") "==" prev s 0) = true.
Proof.
  induction n as [|n IH]; intros s prev prev_o Hn Hp.
  - destruct s; [|simpl in Hn; lia]. rewrite out_empty. cbn [match_free].
    rewrite rmatch_equals, equals_here_empty. reflexivity.
  - destruct s as [|c t].
    { rewrite out_empty. cbn [match_free].
      rewrite rmatch_equals, equals_here_empty. reflexivity. }
    destruct (equals_here prev (String c t)) eqn:E.
    + destruct (out_match _ _ E)
        as (c1 & c2 & c3 & c4 & c5 & c6 & s' & Hs & W6 & Wa & R).
      rewrite R. cbn [append match_free]. rewrite !rmatch_equals.
      unfold equals_here at 1 2. unfold is_equals. cbn [take str_lower String.eqb].
      change (Ascii.eqb (lower "=") "e") with false. rewrite !andb_false_r.
      apply IH; [rewrite Hs in Hn; simpl in Hn; lia | right; exact Wa].
    + rewrite (out_no_match _ _ _ E). cbn [match_free]. rewrite rmatch_equals.
      destruct (equals_here prev_o _) eqn:Eo.
      * exfalso. rewrite <- (out_no_match _ _ _ E) in Eo.
        unfold equals_here in Eo.
        apply andb_prop in Eo. destruct Eo as [Eo Ha].
        apply andb_prop in Eo. destruct Eo as [Eb Ee].
        destruct (is_equals_shape _ Ee)
          as (d1 & d2 & d3 & d4 & d5 & d6 & o' & Ho & Hl & W1 & W6).
        assert (Hlen : length (take 6 (sub_go (word "equals") "==" prev (String c t) 0)) = 6)
          by (rewrite Ho; reflexivity).
        destruct (out_letters 6 _ _ Hl Hlen) as [T D].
        assert (Es : is_equals (String c t) = true)
          by (unfold is_equals in Ee |- *; rewrite T; exact Ee).
        destruct (is_equals_shape _ Es)
          as (c1 & c2 & c3 & c4 & c5 & c6 & s' & Hs & _ & V1 & V6).
        destruct Hp as [Hp|Hp].
        -- rewrite D, Hs in Ha. cbn [prev_after drop] in Ha.
           rewrite out_after_word in Ha by exact V6.
           unfold equals_here in E. rewrite <- Hp, Eb, Es, Hs in E.
           cbn [drop] in E. rewrite Ha in E. discriminate.
        -- injection Hs as <- _. simpl in Hp. congruence.
      * apply IH; [simpl in Hn; lia | left; reflexivity].
Qed.

Lemma match_free_head r prev o :
  match_free r prev o = true -> rmatch r accept_any prev o [] = None.
Proof.
  destruct o; cbn [match_free];
    destruct (rmatch r accept_any prev _ []); congruence.
Qed.

Lemma match_free_drop r k :
  forall prev o,
    match_free r prev o = true ->
    match_free r (prev_after prev o k) (drop k o) = true.
Proof.
  induction k as [|k IH]; intros prev o H; [exact H|].
  destruct o as [|c t]; [exact H|].
  cbn [prev_after drop]. apply IH.
  cbn [match_free] in H.
  destruct (rmatch r accept_any prev (String c t) []); [discriminate|exact H].
Qed.

Lemma sub_go_match_free r repl o :
  forall prev, match_free r prev o = true -> sub_go r repl prev o 0 = o.
Proof.
  induction o as [|c t IH]; intros prev H; cbn [sub_go];
    rewrite (match_free_head _ _ _ H); [reflexivity|].
  pose proof (match_free_drop r 1 _ _ H) as H1. cbn [prev_after drop] in H1.
  rewrite (IH _ H1). reflexivity.
Qed.

Lemma lower_space_not_word x : Ascii.eqb (lower x) " " = true -> is_word x = false.
Proof. destruct x as [[] [] [] [] [] [] [] []]; vm_compute; congruence. Qed.

(** Where the pattern of ["not equals"] matches, the pattern of
    ["equals"] matches four characters further on. *)
Lemma not_equals_needs_equals prev s res :
  rmatch (word "not equals") accept_any prev s [] = Some res ->
  exists c1 c2 c3 c4 rest,
    s = String c1 (String c2 (String c3 (String c4 rest))) /\
    rmatch (word "equals") accept_any (Some c4) rest [] = Some res.
Proof.
  intros H. unfold word in H. cbn [seq lit rmatch] in H.
  destruct (xorb (word_before prev) (word_after s)); [|discriminate].
  destruct s as [|c1 [|c2 [|c3 [|c4 rest]]]];
    try discriminate;
    try (destruct (accepts (CLit "n") c1); [|discriminate]);
    try discriminate;
    try (destruct (accepts (CLit "o") c2); [|discriminate]);
    try discriminate;
    try (destruct (accepts (CLit "t") c3); [|discriminate]);
    try discriminate.
  destruct (accepts (CLit " ") c4) eqn:E4; [|discriminate].
  exists c1, c2, c3, c4, rest. split; [reflexivity|].
  cbn [accepts] in E4. change (lower " ") with " "%char in E4.
  destruct rest as [|e1 r']; [discriminate|].
  destruct (accepts (CLit "e") e1) eqn:E1; [|discriminate].
  unfold word. cbn [seq lit rmatch word_before word_after].
  rewrite (lower_space_not_word _ E4), E1.
  cbn [accepts] in E1. change (lower "e") with "e"%char in E1.
  rewrite (lower_e_word _ E1). cbn [xorb]. exact H.
Qed.

Lemma equals_free_not_equals_free o :
  forall prev,
    match_free (word "equals") prev o = true ->
    match_free (word "not equals") prev o = true.
Proof.
  induction o as [|c t IH]; intros prev H; cbn [match_free].
  - destruct (rmatch (word "not equals") accept_any prev "" []) eqn:E;
      [|reflexivity].
    destruct (not_equals_needs_equals _ _ _ E) as (? & ? & ? & ? & ? & Hs & _).
    discriminate.
  - destruct (rmatch (word "not equals") accept_any prev (String c t) []) eqn:E.
    + destruct (not_equals_needs_equals _ _ _ E)
        as (c1 & c2 & c3 & c4 & rest & Hs & M).
      pose proof (match_free_drop _ 4 _ _ H) as F. rewrite Hs in F.
      cbn [prev_after drop] in F.
      rewrite (match_free_head _ _ _ F) in M. discriminate.
    + apply IH. cbn [match_free] in H.
      destruct (rmatch (word "equals") accept_any prev (String c t) []);
        [discriminate|exact H].
Qed.

Lemma re_sub_not_equals_after_equals s :
  re_sub (word "not equals") "!=" (re_sub (word "equals") "==" s)
    = re_sub (word "equals") "==" s.
Proof.
  unfold re_sub. apply sub_go_match_free, equals_free_not_equals_free.
  apply (equals_free_out (length s)); [lia | left; reflexivity].
Qed.

(** The ["not equals"] entry of the comparator table, standing after the
    ["equals"] entry, never changes any text: the rewriter gives on every
    expression what it would give without that entry, and no ["!="] ever
    comes from it. *)
Theorem not_equals_entry_never_applies :
  forall expr,
    _tx_expr expr
      = strip (replace_all LITERALS
                 (sub_all (removelast COMPARATORS)
                    (replace_all WORD_OPS (" " ++ expr ++ " ")))).
Proof.
  intros expr. unfold _tx_expr, sub_all, COMPARATORS.
  cbn [removelast fold_left fst snd].
  rewrite re_sub_not_equals_after_equals. reflexivity.
Qed.

(** The rewritten expression never begins or ends with white space:
    trimming it again changes nothing. *)
Theorem tx_expr_trimmed :
  forall expr, strip (_tx_expr expr) = _tx_expr expr.
Proof. intros expr. unfold _tx_expr. apply strip_idempotent. Qed.
